(** * Session lifecycle and stateless authentication of the MCP HTTP front end

    A shallow embedding of
    - [middleware/oauth-middleware.ts]  ([getHeaderValue], [salesforceOAuthMiddleware]),
    - the OAuth helper module            ([getHeaderValue], [deriveInstanceUrlFromToken],
                                          [getAuthContext]),
    - [http-server.ts]                   (the [/mcp] handler, the session callbacks,
                                          the keepalive and idle-prune timer),
    followed by the properties established about them.

    Conventions.  A JavaScript [string] is a Rocq [string]: header values are
    the latin-1 characters Node delivers, JSON text is compared only against
    ASCII literals.  [undefined] is [None].  A JavaScript [Map] is an
    insertion-ordered association list with distinct keys ([JsMap]).  A thrown
    exception is the [Throw] completion. *)

From Stdlib Require Import ZArith List String Ascii Bool Lia.
From stdpp Require Import base option list gmap strings.

Import ListNotations.
Local Open Scope string_scope.
Local Open Scope Z_scope.
Set Warnings "-register-all".

(** ** JavaScript values *)

(** Values produced by [express.json()] and by [response.json()].  Numbers are
    the integer-valued ones; [JObj] lists an object's own properties. *)
Inductive Json : Type :=
| JNull
| JBool (b : bool)
| JNum (n : Z)
| JStr (s : string)
| JArr (items : list Json)
| JObj (fields : list (string * Json)).

(** A JavaScript value that may be [undefined]. *)
Definition JsVal : Type := option Json.

(** Completion of an expression or statement that may throw. *)
Inductive Completion (A : Type) : Type :=
| Normal (a : A)
| Throw (msg : string).
Arguments Normal {A} a.
Arguments Throw {A} msg.

Definition bindC {A B} (c : Completion A) (k : A -> Completion B) : Completion B :=
  match c with
  | Normal a => k a
  | Throw m => Throw m
  end.

#[global] Instance Completion_ret : MRet Completion := fun _ a => Normal a.
#[global] Instance Completion_bind : MBind Completion := fun _ _ k c => bindC c k.

(** [ToBoolean]. *)
Definition truthy (v : JsVal) : bool :=
  match v with
  | None => false
  | Some JNull => false
  | Some (JBool b) => b
  | Some (JNum n) => negb (n =? 0)
  | Some (JStr s) => negb (String.eqb s "")
  | Some (JArr _) => true
  | Some (JObj _) => true
  end.

(** [v ?? d] with a JSON default. *)
Definition nullish (v : JsVal) (d : Json) : Json :=
  match v with
  | None => d
  | Some JNull => d
  | Some x => x
  end.

Fixpoint assoc {A} (k : string) (l : list (string * A)) : option A :=
  match l with
  | [] => None
  | (k', v) :: l' => if String.eqb k' k then Some v else assoc k l'
  end.

(** [o.k] for a value [o] that is neither [undefined] nor [null]; the names
    read by the program ([method], [id], [params], [name], [urls], [rest]) are
    not properties of arrays or primitives. *)
Definition get_prop (o : Json) (k : string) : JsVal :=
  match o with
  | JObj fields => assoc k fields
  | _ => None
  end.

(** [o?.k] *)
Definition opt_chain (o : JsVal) (k : string) : JsVal :=
  match o with
  | None => None
  | Some JNull => None
  | Some x => get_prop x k
  end.

(** [o.k]: a [TypeError] on [undefined] and [null]. *)
Definition member (o : JsVal) (k : string) : Completion JsVal :=
  match o with
  | None => Throw ("Cannot read properties of undefined (reading '" ++ k ++ "')")
  | Some JNull => Throw ("Cannot read properties of null (reading '" ++ k ++ "')")
  | Some x => Normal (get_prop x k)
  end.

(** [method === lit] for a string literal. *)
Definition strict_eq_str (v : JsVal) (lit : string) : bool :=
  match v with
  | Some (JStr s) => String.eqb s lit
  | _ => false
  end.

(** [arr.includes(v)] for an array of string literals. *)
Definition includes (arr : list string) (v : JsVal) : bool :=
  existsb (strict_eq_str v) arr.

(** ** Strings *)

(** White space removed by [String.prototype.trim], within latin-1. *)
Definition is_ws (c : ascii) : bool :=
  let n := N_of_ascii c in
  ((9 <=? n) && (n <=? 13) || (n =? 32) || (n =? 160))%N.

Fixpoint trim_start (s : string) : string :=
  match s with
  | EmptyString => EmptyString
  | String c s' => if is_ws c then trim_start s' else s
  end.

Fixpoint str_rev_app (s acc : string) : string :=
  match s with
  | EmptyString => acc
  | String c s' => str_rev_app s' (String c acc)
  end.

Definition str_rev (s : string) : string := str_rev_app s EmptyString.

Definition trim (s : string) : string :=
  str_rev (trim_start (str_rev (trim_start s))).

(** [s.substring(n)] *)
Fixpoint substring_from (n : nat) (s : string) : string :=
  match n, s with
  | O, _ => s
  | S n', String _ s' => substring_from n' s'
  | S _, EmptyString => EmptyString
  end.

(** [s.startsWith(p)] *)
Definition startsWith (s p : string) : bool := String.prefix p s.

(** ** Header Normalizer *)

(** A header store: [Record<string, string | string[] | undefined>]. *)
Inductive HeaderValue : Type :=
| HSingle (s : string)
| HMulti (l : list string).

Abbreviation Headers := (gmap string HeaderValue).

(** [!value] on a header value. *)
Definition header_falsy (v : option HeaderValue) : bool :=
  match v with
  | None => true
  | Some (HSingle s) => String.eqb s ""
  | Some (HMulti _) => false
  end.

(** [getHeaderValue(headers, name)]:
<<
  const value = headers[name];
  if (!value) return undefined;
  return Array.isArray(value) ? value[0] : value;
>> *)
Definition getHeaderValue (headers : Headers) (name : string) : option string :=
  let value := headers !! name in
  if header_falsy value then None
  else match value with
       | Some (HMulti l) => head l
       | Some (HSingle s) => Some s
       | None => None
       end.

(** [!s] on a normalized header value. *)
Definition str_falsy (s : option string) : bool :=
  match s with
  | None => true
  | Some s => String.eqb s ""
  end.

(** ** Requests and protocol-level error responses *)

Record Request : Type := mkRequest {
  req_method : string;
  req_headers : Headers;
  req_body : JsVal
}.

(** [res.status(status).json({ jsonrpc, error: { code, message, data }, id })] *)
Record ErrorResponse : Type := mkErrorResponse {
  status : Z;
  jsonrpc : string;
  code : Z;
  message : string;
  data : option string;
  id : Json
}.

(** ** Auth Gate: [salesforceOAuthMiddleware] *)

Record SalesforceAuthContext : Type := mkAuth {
  accessToken : string;
  instanceUrl : option string;
  userId : option string
}.

Inductive GateResult : Type :=
| Next (salesforceAuth : option SalesforceAuthContext)
| Rejected (resp : ErrorResponse).

Definition skipAuthMethods : list string := ["ping"; "initialize"].

Definition MissingCredential (requestId : Json) : ErrorResponse :=
  mkErrorResponse 401 "2.0" (-32000)
    "Missing Authorization header. Please authenticate with Salesforce." None requestId.

(** The double-quote character of the message below. *)
Definition dquote : string := String "034"%char EmptyString.

Definition MalformedCredential (requestId : Json) : ErrorResponse :=
  mkErrorResponse 401 "2.0" (-32000)
    ("Invalid Authorization header format. Expected " ++ dquote ++ "Bearer <token>" ++ dquote ++ ".")
    None requestId.

Definition EmptyCredential (requestId : Json) : ErrorResponse :=
  mkErrorResponse 401 "2.0" (-32000) "Empty access token" None requestId.

Definition salesforceOAuthMiddleware (req : Request) : GateResult :=
  if String.eqb (req_method req) "GET" then Next None
  else
    let method := opt_chain (req_body req) "method" in
    let requestId := nullish (opt_chain (req_body req) "id") (JStr "unknown") in
    if includes skipAuthMethods method then Next None
    else
      let authHeader := getHeaderValue (req_headers req) "authorization" in
      match authHeader with
      | None => Rejected (MissingCredential requestId)
      | Some h =>
          if String.eqb h "" then Rejected (MissingCredential requestId)
          else if negb (startsWith h "Bearer ") then Rejected (MalformedCredential requestId)
          else
            let token := trim (substring_from 7 h) in
            if String.eqb token "" then Rejected (EmptyCredential requestId)
            else
              let instance := getHeaderValue (req_headers req) "x-salesforce-instance-url" in
              Next (Some {| accessToken := token;
                            instanceUrl := if str_falsy instance then None else instance;
                            userId := None |})
      end.

(** ** Auth Context Resolver

    [fetch], [response.json()] and the [URL] constructor belong to the platform.
    The network is an oracle that answers a call given the calls made so far;
    the calls made are recorded in a trace that is threaded through the
    resolver.  The [URL] constructor is a parameter: it returns the parsed
    record or throws. *)

Record FetchCall : Type := mkFetchCall {
  fetch_url : string;
  fetch_headers : list (string * string)
}.

Inductive FetchOutcome : Type :=
| FetchRejects (msg : string)
| FetchResponse (resp_status : Z) (resp_json : Completion Json).

(** [response.ok] *)
Definition response_ok (resp_status : Z) : bool :=
  (200 <=? resp_status) && (resp_status <=? 299).

Record URL : Type := mkURL {
  protocol : string;
  host : string
}.

Definition userinfoEndpoint : string :=
  "https://login.salesforce.com/services/oauth2/userinfo".

Section Resolver.

Variable network : list FetchCall -> FetchCall -> FetchOutcome.
Variable URL_new : Json -> Completion URL.

(** The [try] block of [deriveInstanceUrlFromToken], after [fetch] settled. *)
Definition derive_try (outcome : FetchOutcome) : Completion (option string) :=
  match outcome with
  | FetchRejects m => Throw m
  | FetchResponse st body =>
      if negb (response_ok st) then Normal None
      else
        userInfo ← body;
        urls ← member (Some userInfo) "urls";
        let restUrl := opt_chain urls "rest" in
        match restUrl with
        | None => Normal None
        | Some r =>
            if negb (truthy restUrl) then Normal None
            else
              url ← URL_new r;
              Normal (Some (protocol url ++ "//" ++ host url))
        end
  end.

(** [deriveInstanceUrlFromToken(accessToken)]: one [fetch], then the [try]
    block; the [catch] clause turns every exception into [undefined]. *)
Definition deriveInstanceUrlFromToken (accessToken : string)
    (trace : list FetchCall) : option string * list FetchCall :=
  let call := {| fetch_url := userinfoEndpoint;
                 fetch_headers := [("Authorization", "Bearer " ++ accessToken);
                                   ("Accept", "application/json")] |} in
  let outcome := network trace call in
  (match derive_try outcome with
   | Normal r => r
   | Throw _ => None
   end, (trace ++ [call])%list).

(** [getAuthContext(extra)], on [extra?.requestInfo?.headers]. *)
Definition getAuthContext (headers : option Headers)
    (trace : list FetchCall) : option SalesforceAuthContext * list FetchCall :=
  match headers with
  | None => (None, trace)
  | Some headers =>
      match getHeaderValue headers "authorization" with
      | None => (None, trace)
      | Some authHeader =>
          if String.eqb authHeader "" || negb (startsWith authHeader "Bearer ")
          then (None, trace)
          else
            let token := trim (substring_from 7 authHeader) in
            if String.eqb token "" then (None, trace)
            else
              let instance := getHeaderValue headers "x-salesforce-instance-url" in
              if str_falsy instance then
                let '(derived, trace1) := deriveInstanceUrlFromToken token trace in
                if str_falsy derived then (None, trace1)
                else (Some {| accessToken := token; instanceUrl := derived;
                              userId := None |}, trace1)
              else
                (Some {| accessToken := token; instanceUrl := instance;
                         userId := None |}, trace)
      end
  end.

End Resolver.

(** A reference [URL] constructor for absolute URLs of the form
    [scheme://host[:port][/path][?query][#fragment]] given as strings; every
    other input is rejected.  It only serves to instantiate the parameter
    [URL_new] on concrete inputs. *)
Fixpoint split_at (stop : ascii -> bool) (s : string) : string * string :=
  match s with
  | EmptyString => (EmptyString, EmptyString)
  | String c s' =>
      if stop c then (EmptyString, s)
      else let '(a, b) := split_at stop s' in (String c a, b)
  end.

Definition url_new_ref (v : Json) : Completion URL :=
  match v with
  | JStr s =>
      let '(scheme, rest) := split_at (Ascii.eqb ":"%char) s in
      if String.eqb scheme "" || negb (startsWith rest "://") then Throw "Invalid URL"
      else
        let '(authority, _) :=
          split_at (fun c => Ascii.eqb c "/"%char || Ascii.eqb c "?"%char || Ascii.eqb c "#"%char)
                   (substring_from 3 rest) in
        if String.eqb authority "" then Throw "Invalid URL"
        else Normal {| protocol := scheme ++ ":"; host := authority |}
  | _ => Throw "Invalid URL"
  end.

(** ** JavaScript [Map]

    Entries in insertion order.  [set] on a present key keeps its position,
    [delete] removes the key, iteration visits the entries in order. *)
Module JsMap.

Definition t (V : Type) : Type := list (string * V).

Definition empty {V} : t V := [].

Definition get {V} (k : string) (m : t V) : option V := assoc k m.

Definition has {V} (k : string) (m : t V) : bool :=
  match get k m with
  | Some _ => true
  | None => false
  end.

Fixpoint set {V} (k : string) (v : V) (m : t V) : t V :=
  match m with
  | [] => [(k, v)]
  | (k', v') :: m' =>
      if String.eqb k' k then (k', v) :: m' else (k', v') :: set k v m'
  end.

Definition delete {V} (k : string) (m : t V) : t V :=
  List.filter (fun e => negb (String.eqb (fst e) k)) m.

Definition size {V} (m : t V) : nat := length m.

Definition keys {V} (m : t V) : list string := List.map fst m.

(** The keys of a [Map] are pairwise distinct. *)
Definition wf {V} (m : t V) : Prop := List.NoDup (keys m).

End JsMap.

(** ** Session Registry *)

(** Handles of the collaborators: a transport, a per-session server instance
    and an express response object. *)
Definition Transport : Type := nat.
Definition McpServer : Type := nat.
Definition Stream : Type := nat.

(** The four process-wide maps of [http-server.ts]. *)
Record ServerState : Type := mkState {
  transports : JsMap.t Transport;
  mcpServers : JsMap.t McpServer;
  sseStreams : JsMap.t Stream;
  sessionActivity : JsMap.t Z
}.

Definition initial : ServerState :=
  {| transports := JsMap.empty; mcpServers := JsMap.empty;
     sseStreams := JsMap.empty; sessionActivity := JsMap.empty |}.

(** The teardown block shared by [onsessionclosed], the stream [close]
    listener, the [DELETE] branch and the idle prune: the id is deleted from
    all four maps. *)
Definition destroy (sid : string) (st : ServerState) : ServerState :=
  {| transports := JsMap.delete sid (transports st);
     mcpServers := JsMap.delete sid (mcpServers st);
     sseStreams := JsMap.delete sid (sseStreams st);
     sessionActivity := JsMap.delete sid (sessionActivity st) |}.

(** [onsessioninitialized(newSessionId)], once the server instance exists. *)
Definition onsessioninitialized (newSessionId : string) (transport : Transport)
    (server : McpServer) (now : Z) (st : ServerState) : ServerState :=
  {| mcpServers := JsMap.set newSessionId server (mcpServers st);
     transports := JsMap.set newSessionId transport (transports st);
     sseStreams := sseStreams st;
     sessionActivity := JsMap.set newSessionId now (sessionActivity st) |}.

(** [onsessionclosed(closedSessionId)] *)
Definition onsessionclosed (closedSessionId : string) (st : ServerState) : ServerState :=
  destroy closedSessionId st.

(** The [res.on('close', ...)] listener registered by the [GET] branch. *)
Definition streamClosed (sessionId : string) (st : ServerState) : ServerState :=
  let st1 := {| transports := transports st; mcpServers := mcpServers st;
                sseStreams := JsMap.delete sessionId (sseStreams st);
                sessionActivity := sessionActivity st |} in
  {| transports := JsMap.delete sessionId (transports st1);
     mcpServers := JsMap.delete sessionId (mcpServers st1);
     sseStreams := sseStreams st1;
     sessionActivity := JsMap.delete sessionId (sessionActivity st1) |}.

(** ** The [/mcp] handler *)

Definition SessionRequired (requestId : Json) : ErrorResponse :=
  mkErrorResponse 400 "2.0" (-32000)
    "Initialize request required to create session" None requestId.

Definition InvalidSession (requestId : Json) : ErrorResponse :=
  mkErrorResponse 400 "2.0" (-32000) "Invalid or missing session ID" None requestId.

Definition InternalError (detail : string) (requestId : Json) : ErrorResponse :=
  mkErrorResponse 500 "2.0" (-32603) "Internal error" (Some detail) requestId.

(** The transport a request is handed to: the one created for an
    [initialize] call, or the one registered for the session. *)
Inductive TransportRef : Type :=
| NewTransport
| Registered (t : Transport).

(** A callback of the registry that the transport runs while it handles a
    request: [onsessioninitialized(newSessionId)] run to its end, or
    [onsessionclosed(closedSessionId)].  The first carries the id minted by
    [sessionIdGenerator], the handle of the transport object the request
    created (the [transport!] the closure captured), the server instance
    [createMcpServer] returned and the [Date.now()] read by the callback. *)
Inductive Callback : Type :=
| OnSessionInitialized (newSessionId : string) (transport : Transport)
    (server : McpServer) (now : Z)
| OnSessionClosed.

(** What [await transport.handleRequest(req, res, req.body)] does: it runs
    callbacks of the registry, and it returns, or it throws, before or after
    the response headers were sent. *)
Inductive HandleOutcome : Type :=
| Handled
| HandleThrows (msg : string) (headersSent : bool)
| Calls (callback : Callback) (rest : HandleOutcome).

(** How [handleRequest] ends: [None] when it returns. *)
Fixpoint settle (h : HandleOutcome) : option (string * bool) :=
  match h with
  | Handled => None
  | HandleThrows msg headersSent => Some (msg, headersSent)
  | Calls _ rest => settle rest
  end.

(** What the handler leaves on the wire. *)
Inductive Reply : Type :=
| Replied (resp : ErrorResponse)
| Delegated (t : TransportRef)
| Aborted (msg : string).

(** The key under which a truthy [sessionId] is found in the maps. *)
Definition session_key (sessionId : option HeaderValue) : option string :=
  match sessionId with
  | Some (HSingle s) => if String.eqb s "" then None else Some s
  | _ => None
  end.

(** [sessionId ? transports.get(sessionId) : undefined]; an array is never a
    key of the map. *)
Definition lookup_transport (sessionId : option HeaderValue) (st : ServerState)
    : option Transport :=
  match session_key sessionId with
  | Some s => JsMap.get s (transports st)
  | None => None
  end.

(** The session branches: which transport serves the request, or the
    rejection sent. *)
Definition route (req : Request) (st : ServerState)
    : Completion (TransportRef + ErrorResponse) :=
  let sessionId := req_headers req !! "mcp-session-id" in
  let transport := lookup_transport sessionId st in
  if header_falsy sessionId && String.eqb (req_method req) "POST" then
    let body := req_body req in
    method ← member body "method";
    if strict_eq_str method "initialize" then Normal (inl NewTransport)
    else
      requestId ← member body "id";
      Normal (inr (SessionRequired (nullish requestId JNull)))
  else
    match transport with
    | None => Normal (inr (InvalidSession (nullish (opt_chain (req_body req) "id") JNull)))
    | Some t => Normal (inl (Registered t))
    end.

(** The bookkeeping between routing and the hand-off.  Past the routing a
    truthy [sessionId] is a key of [transports], hence a non-empty string. *)
Definition track (req : Request) (res : Stream) (now : Z) (st : ServerState)
    : ServerState :=
  let sessionId := session_key (req_headers req !! "mcp-session-id") in
  if String.eqb (req_method req) "POST" && truthy (opt_chain (req_body req) "method") then
    match sessionId with
    | Some sid =>
        {| transports := transports st; mcpServers := mcpServers st;
           sseStreams := sseStreams st;
           sessionActivity := JsMap.set sid now (sessionActivity st) |}
    | None => st
    end
  else if String.eqb (req_method req) "GET" then
    match sessionId with
    | Some sid =>
        {| transports := transports st; mcpServers := mcpServers st;
           sseStreams := JsMap.set sid res (sseStreams st);
           sessionActivity := JsMap.set sid now (sessionActivity st) |}
    | None => st
    end
  else if String.eqb (req_method req) "DELETE" then
    match sessionId with
    | Some sid => destroy sid st
    | None => st
    end
  else st.

(** The registry after the transport ran a callback.  The transport runs
    [onsessioninitialized] only while a transport created for an [initialize]
    call handles that call, and [onsessionclosed] only while a registered
    transport handles a [DELETE], with the session id of the request; a
    callback listed where the transport cannot run it has no effect. *)
Definition run_callback (cb : Callback) (transport : TransportRef) (req : Request)
    (st : ServerState) : ServerState :=
  match cb, transport with
  | OnSessionInitialized newSessionId t server now, NewTransport =>
      onsessioninitialized newSessionId t server now st
  | OnSessionClosed, Registered _ =>
      if String.eqb (req_method req) "DELETE" then
        match session_key (req_headers req !! "mcp-session-id") with
        | Some sid => onsessionclosed sid st
        | None => st
        end
      else st
  | _, _ => st
  end.

(** The registry after the callbacks of [handleRequest], in order. *)
Fixpoint run_callbacks (h : HandleOutcome) (transport : TransportRef) (req : Request)
    (st : ServerState) : ServerState :=
  match h with
  | Calls cb rest => run_callbacks rest transport req (run_callback cb transport req st)
  | _ => st
  end.

(** [app.all('/mcp', async (req, res) => { try { ... } catch (error) { ... } })] *)
Definition mcpHandler (handleRequest : HandleOutcome) (now : Z) (res : Stream)
    (req : Request) (st : ServerState) : ServerState * Reply :=
  let requestId := nullish (opt_chain (req_body req) "id") JNull in
  match route req st with
  | Throw msg => (st, Replied (InternalError msg requestId))
  | Normal (inr rejection) => (st, Replied rejection)
  | Normal (inl transport) =>
      let st1 := track req res now st in
      let st2 := run_callbacks handleRequest transport req st1 in
      match settle handleRequest with
      | None => (st2, Delegated transport)
      | Some (msg, headersSent) =>
          if headersSent then (st2, Aborted msg)
          else (st2, Replied (InternalError msg requestId))
      end
  end.

(** [app.use('/mcp', salesforceOAuthMiddleware)] ahead of the handler. *)
Definition serve (handleRequest : HandleOutcome) (now : Z) (res : Stream)
    (req : Request) (st : ServerState) : ServerState * Reply :=
  match salesforceOAuthMiddleware req with
  | Rejected resp => (st, Replied resp)
  | Next _ => mcpHandler handleRequest now res req st
  end.

(** The earlier revision of [http-server.ts]: the same routing over
    [transports]; the registry has the two maps [transports] and [mcpServers]
    and changes only in the callbacks the transport runs. *)
Module Legacy.

(** [onsessioninitialized(newSessionId)] of the earlier revision. *)
Definition onsessioninitialized (newSessionId : string) (transport : Transport)
    (server : McpServer) (st : ServerState) : ServerState :=
  {| mcpServers := JsMap.set newSessionId server (mcpServers st);
     transports := JsMap.set newSessionId transport (transports st);
     sseStreams := sseStreams st;
     sessionActivity := sessionActivity st |}.

(** [onsessionclosed(closedSessionId)] of the earlier revision. *)
Definition onsessionclosed (closedSessionId : string) (st : ServerState) : ServerState :=
  {| transports := JsMap.delete closedSessionId (transports st);
     mcpServers := JsMap.delete closedSessionId (mcpServers st);
     sseStreams := sseStreams st;
     sessionActivity := sessionActivity st |}.

Definition run_callback (cb : Callback) (transport : TransportRef) (req : Request)
    (st : ServerState) : ServerState :=
  match cb, transport with
  | OnSessionInitialized newSessionId t server _, NewTransport =>
      onsessioninitialized newSessionId t server st
  | OnSessionClosed, Registered _ =>
      if String.eqb (req_method req) "DELETE" then
        match session_key (req_headers req !! "mcp-session-id") with
        | Some sid => onsessionclosed sid st
        | None => st
        end
      else st
  | _, _ => st
  end.

Fixpoint run_callbacks (h : HandleOutcome) (transport : TransportRef) (req : Request)
    (st : ServerState) : ServerState :=
  match h with
  | Calls cb rest => run_callbacks rest transport req (run_callback cb transport req st)
  | _ => st
  end.

Definition mcpHandler (handleRequest : HandleOutcome) (req : Request)
    (st : ServerState) : ServerState * Reply :=
  let requestId := nullish (opt_chain (req_body req) "id") JNull in
  match route req st with
  | Throw msg => (st, Replied (InternalError msg requestId))
  | Normal (inr rejection) => (st, Replied rejection)
  | Normal (inl transport) =>
      let st2 := run_callbacks handleRequest transport req st in
      match settle handleRequest with
      | None => (st2, Delegated transport)
      | Some (msg, headersSent) =>
          if headersSent then (st2, Aborted msg)
          else (st2, Replied (InternalError msg requestId))
      end
  end.

Definition serve (handleRequest : HandleOutcome) (req : Request)
    (st : ServerState) : ServerState * Reply :=
  match salesforceOAuthMiddleware req with
  | Rejected resp => (st, Replied resp)
  | Next _ => mcpHandler handleRequest req st
  end.

End Legacy.

(** ** Liveness Manager *)

Definition keepaliveIntervalMs : Z := 30000.
Definition sessionTtlMs : Z := 5 * 60 * 1000.

(** What [stream.write(keepaliveComment)] does. *)
Inductive WriteResult : Type :=
| Written
| Backpressure
| WriteThrows (msg : string).

(** One iteration of the keepalive loop. *)
Definition keepalive_entry (write : string -> Stream -> WriteResult)
    (st : ServerState) (entry : string * Stream) : ServerState :=
  let '(sessionId, stream) := entry in
  match write sessionId stream with
  | Written => st
  | Backpressure => st
  | WriteThrows _ =>
      {| transports := transports st; mcpServers := mcpServers st;
         sseStreams := JsMap.delete sessionId (sseStreams st);
         sessionActivity := JsMap.delete sessionId (sessionActivity st) |}
  end.

(** [for (const [sessionId, stream] of sseStreams.entries()) { ... }], run
    when [sseStreams.size > 0].  An iteration deletes at most the entry it is
    visiting and adds none, so the loop over the live map visits the entries
    present when it starts, in order. *)
Definition keepalive (write : string -> Stream -> WriteResult) (st : ServerState)
    : ServerState :=
  if (0 <? JsMap.size (sseStreams st))%nat
  then fold_left (keepalive_entry write) (sseStreams st) st
  else st.

(** One iteration of the prune loop.  The second component collects the ids
    on which the teardown block ran. *)
Definition prune_entry (now : Z) (acc : ServerState * list string)
    (entry : string * Z) : ServerState * list string :=
  let '(sessionId, lastSeen) := entry in
  if now - lastSeen >? sessionTtlMs
  then (destroy sessionId (fst acc), (snd acc ++ [sessionId])%list)
  else acc.

(** [for (const [sessionId, lastSeen] of sessionActivity.entries()) { ... }];
    as in the keepalive loop an iteration deletes only the entry it visits. *)
Definition prune (now : Z) (st : ServerState) : ServerState * list string :=
  fold_left (prune_entry now) (sessionActivity st) (st, []).

(** The [setInterval] callback: keepalive, then prune at [Date.now()]. *)
Definition tick (write : string -> Stream -> WriteResult) (now : Z)
    (st : ServerState) : ServerState :=
  fst (prune now (keepalive write st)).

(** ** Events of the server process *)

Inductive Event : Type :=
| Incoming (req : Request) (res : Stream) (now : Z) (handleRequest : HandleOutcome)
| SessionInitialized (sid : string) (transport : Transport) (server : McpServer) (now : Z)
| SessionClosed (sid : string)
| StreamClose (sid : string)
| Tick (write : string -> Stream -> WriteResult) (now : Z).

Definition step (st : ServerState) (e : Event) : ServerState :=
  match e with
  | Incoming req res now h => fst (serve h now res req st)
  | SessionInitialized sid t s now => onsessioninitialized sid t s now st
  | SessionClosed sid => onsessionclosed sid st
  | StreamClose sid => streamClosed sid st
  | Tick write now => tick write now st
  end.

Definition run (st : ServerState) (events : list Event) : ServerState :=
  fold_left step events st.

(** States the process can be in: those reached from the empty maps. *)
Definition reachable (st : ServerState) : Prop :=
  exists events, run initial events = st.

Definition wf_state (st : ServerState) : Prop :=
  JsMap.wf (transports st) /\ JsMap.wf (mcpServers st) /\
  JsMap.wf (sseStreams st) /\ JsMap.wf (sessionActivity st).

(** * Derived notions

    Predicates and observations on the embedding, and the sample states used
    below. *)

(** A request the gate authenticates: neither a [GET] nor an allow-listed
    bootstrap method. *)
Definition subject_to_auth (req : Request) : bool :=
  negb (String.eqb (req_method req) "GET") &&
  negb (includes skipAuthMethods (opt_chain (req_body req) "method")).

(** The correlation id the gate echoes. *)
Definition gate_request_id (req : Request) : Json :=
  nullish (opt_chain (req_body req) "id") (JStr "unknown").

(** The correlation id the [/mcp] handler echoes. *)
Definition handler_request_id (req : Request) : Json :=
  nullish (opt_chain (req_body req) "id") JNull.

Definition delete_all {V} (ks : list string) (m : JsMap.t V) : JsMap.t V :=
  fold_left (fun m k => JsMap.delete k m) ks m.

Definition destroy_all (ks : list string) (st : ServerState) : ServerState :=
  fold_left (fun st k => destroy k st) ks st.

(** A session id that is a key of none of the four maps. *)
Definition absent (sid : string) (st : ServerState) : Prop :=
  ~ In sid (JsMap.keys (transports st)) /\ ~ In sid (JsMap.keys (mcpServers st)) /\
  ~ In sid (JsMap.keys (sseStreams st)) /\ ~ In sid (JsMap.keys (sessionActivity st)).

Definition expired (now : Z) (entry : string * Z) : bool :=
  now - snd entry >? sessionTtlMs.

(** The ids the prune loop tears down, in iteration order. *)
Definition evicted_ids (now : Z) (activity : JsMap.t Z) : list string :=
  JsMap.keys (List.filter (expired now) activity).

Definition write_failed (write : string -> Stream -> WriteResult)
    (entry : string * Stream) : bool :=
  match write (fst entry) (snd entry) with
  | WriteThrows _ => true
  | _ => false
  end.

(** The ids whose keepalive write threw, in iteration order. *)
Definition failed_ids (write : string -> Stream -> WriteResult)
    (streams : JsMap.t Stream) : list string :=
  JsMap.keys (List.filter (write_failed write) streams).

(** A session registered by the handshake whose event stream was opened by a
    [GET]. *)
Definition streaming_session : ServerState :=
  run initial
    [SessionInitialized "s1" 1%nat 2%nat 1000;
     Incoming (mkRequest "GET" {[ "mcp-session-id" := HSingle "s1" ]} None) 3%nat 2000 Handled].

(** A registry with one session last active at time 1000. *)
Definition idle_session : ServerState :=
  run initial [SessionInitialized "s1" 1%nat 2%nat 1000].



(** The keepalive write of the session, if it has a stream, does not throw. *)
Definition write_survives (write : string -> Stream -> WriteResult)
    (sid : string) (st : ServerState) : Prop :=
  forall stream msg, JsMap.get sid (sseStreams st) = Some stream ->
                     write sid stream <> WriteThrows msg.

(** The ids torn down by the idle sweep of one firing of the timer. *)
Definition tick_evicted (write : string -> Stream -> WriteResult) (now : Z)
    (st : ServerState) : list string :=
  snd (prune now (keepalive write st)).




(** The transport runs its close callback while handling the request. *)
Fixpoint closes (h : HandleOutcome) : bool :=
  match h with
  | Calls OnSessionClosed _ => true
  | Calls _ rest => closes rest
  | _ => false
  end.

(** The token the resolver extracts from the credential header, if any. *)
Definition bearer_token (headers : Headers) : option string :=
  match getHeaderValue headers "authorization" with
  | None => None
  | Some authHeader =>
      if String.eqb authHeader "" || negb (startsWith authHeader "Bearer ") then None
      else
        let token := trim (substring_from 7 authHeader) in
        if String.eqb token "" then None else Some token
  end.

(** The one call the slow path makes. *)
Definition userinfo_call (token : string) : FetchCall :=
  {| fetch_url := userinfoEndpoint;
     fetch_headers := [("Authorization", "Bearer " ++ token);
                       ("Accept", "application/json")] |}.

(** [userInfo.urls?.rest] on a value that is not [null]. *)
Definition rest_field (userInfo : Json) : JsVal :=
  opt_chain (get_prop userInfo "urls") "rest".

(** A stub introspection endpoint answering 200 with the rest URL of the
    example. *)
Definition stub_userinfo (_ : list FetchCall) (_ : FetchCall) : FetchOutcome :=
  FetchResponse 200
    (Normal (JObj [("user_id", JStr "005xx");
                   ("urls", JObj [("rest", JStr "https://foo.example.com/services/data/v60.0/")])])).

(** * Further parts of the program

    The functions of the cited files that the claims above do not reach: the
    type guard of the auth-context module, the two remaining exports of the
    OAuth helper module, the request-logging middleware and the health
    endpoint of [http-server.ts]. *)

(** ** [hasSalesforceAuth] *)

(** [typeof v] *)
Definition typeof (v : JsVal) : string :=
  match v with
  | None => "undefined"
  | Some JNull => "object"
  | Some (JBool _) => "boolean"
  | Some (JNum _) => "number"
  | Some (JStr _) => "string"
  | Some (JArr _) => "object"
  | Some (JObj _) => "object"
  end.

(** [hasSalesforceAuth(obj)]:
<<
  return obj && typeof obj.salesforceAuth === 'object'
    && typeof obj.salesforceAuth.accessToken === 'string';
>>
    The value of [a && b] is [a] itself when [a] is falsy. *)
Definition hasSalesforceAuth (obj : JsVal) : Completion JsVal :=
  if negb (truthy obj) then Normal obj
  else
    salesforceAuth ← member obj "salesforceAuth";
    if negb (String.eqb (typeof salesforceAuth) "object") then Normal (Some (JBool false))
    else
      token ← member salesforceAuth "accessToken";
      Normal (Some (JBool (String.eqb (typeof token) "string"))).

(** The context object literal built by the gate; a property whose value is
    [undefined] reads like a missing one. *)
Definition auth_object (ctx : SalesforceAuthContext) : Json :=
  JObj (("accessToken", JStr (accessToken ctx)) ::
        match instanceUrl ctx with
        | Some u => [("instanceUrl", JStr u)]
        | None => []
        end ++
        match userId ctx with
        | Some u => [("userId", JStr u)]
        | None => []
        end)%list.

(** ** [hasOAuthContext] and [createOAuthConnection]

    [AuthInfo.create] and [Connection.create] belong to [@salesforce/core];
    they are parameters that return a handle or throw. *)
Section Connections.

Variable network : list FetchCall -> FetchCall -> FetchOutcome.
Variable URL_new : Json -> Completion URL.
Variables AuthInfo Connection : Type.
Variable AuthInfo_create : string -> string -> option string -> Completion AuthInfo.
Variable Connection_create : AuthInfo -> Completion Connection.

(** [createOAuthConnection(extra)] *)
Definition createOAuthConnection (headers : option Headers) (trace : list FetchCall)
    : Completion (option Connection) * list FetchCall :=
  let '(authContext, trace1) := getAuthContext network URL_new headers trace in
  match authContext with
  | None => (Normal None, trace1)
  | Some ctx =>
      (authInfo ← AuthInfo_create "oauth-user" (accessToken ctx) (instanceUrl ctx);
       connection ← Connection_create authInfo;
       Normal (Some connection), trace1)
  end.

(** [hasOAuthContext(extra)] *)
Definition hasOAuthContext (headers : option Headers) (trace : list FetchCall)
    : bool * list FetchCall :=
  let '(authContext, trace1) := getAuthContext network URL_new headers trace in
  (match authContext with
   | Some _ => true
   | None => false
   end, trace1).

End Connections.

(** ** Request logging middleware *)

(** [c.toLowerCase()] on a latin-1 character. *)
Definition lower_char (c : ascii) : ascii :=
  let n := N_of_ascii c in
  if ((65 <=? n) && (n <=? 90) ||
      (192 <=? n) && (n <=? 222) && negb (n =? 215))%N
  then ascii_of_N (n + 32)
  else c.

(** [s.toLowerCase()] *)
Fixpoint toLowerCase (s : string) : string :=
  match s with
  | EmptyString => EmptyString
  | String c s' => String (lower_char c) (toLowerCase s')
  end.



(** ** Health check endpoint *)

(** The body of [GET /health], without its timestamp. *)
Record HealthData : Type := mkHealth {
  health_status : string;
  health_transport : string;
  sessions : nat
}.

Definition health (st : ServerState) : HealthData :=
  {| health_status := "ok";
     health_transport := "streamable-http";
     sessions := JsMap.size (transports st) |}.

(** ** Further derived notions *)

(** The string is empty or starts with a character that [trim] keeps. *)
Definition head_kept (s : string) : Prop :=
  match s with
  | EmptyString => True
  | String c _ => is_ws c = false
  end.

(** Every character of the string is white space. *)
Fixpoint all_ws (s : string) : Prop :=
  match s with
  | EmptyString => True
  | String c s' => is_ws c = true /\ all_ws s'
  end.

(** The string is what [trim] returns on some input: no white space at either
    end. *)
Definition trimmed (s : string) : Prop :=
  head_kept s /\ head_kept (str_rev s).

(** Every stream reference and every activity record belongs to a registered
    session, and transports and server instances are registered together. *)
Definition registry_consistent (st : ServerState) : Prop :=
  JsMap.keys (mcpServers st) = JsMap.keys (transports st) /\
  (forall sid, In sid (JsMap.keys (sseStreams st)) -> In sid (JsMap.keys (transports st))) /\
  (forall sid, In sid (JsMap.keys (sessionActivity st)) ->
               In sid (JsMap.keys (transports st))).

(** A [POST] or [GET] addressed to session [sid]. *)
Definition addressed_to (sid : string) (req : Request) : Prop :=
  session_key (req_headers req !! "mcp-session-id") = Some sid.

(** * Properties *)

(** ** The embedding on concrete inputs *)

Example trim_strips_both_ends : trim (substring_from 7 "Bearer   abc  ") = "abc".
Proof. reflexivity. Qed.

Example startsWith_is_case_sensitive :
  startsWith "Bearer abc" "Bearer " = true /\ startsWith "bearer abc" "Bearer " = false.
Proof. split; reflexivity. Qed.

Example set_keeps_position :
  JsMap.set "a" 3 (JsMap.set "b" 2 (JsMap.set "a" 1 JsMap.empty)) = [("a", 3); ("b", 2)].
Proof. reflexivity. Qed.

Example delete_then_set_appends :
  JsMap.set "a" 3 (JsMap.delete "a" [("a", 1); ("b", 2)]) = [("b", 2); ("a", 3)].
Proof. reflexivity. Qed.

Example url_new_ref_example :
  url_new_ref (JStr "https://na1.salesforce.com:8443/services/data/v60.0/?x=1#top")
    = Normal {| protocol := "https:"; host := "na1.salesforce.com:8443" |} /\
  url_new_ref (JStr "not a url") = Throw "Invalid URL".
Proof. split; reflexivity. Qed.

Example gate_skips_get_and_bootstrap :
  salesforceOAuthMiddleware (mkRequest "GET" ∅ None) = Next None /\
  salesforceOAuthMiddleware
    (mkRequest "POST" ∅ (Some (JObj [("method", JStr "ping")]))) = Next None /\
  salesforceOAuthMiddleware
    (mkRequest "POST" ∅ (Some (JObj [("method", JStr "initialize")]))) = Next None.
Proof. repeat split. Qed.

Example prune_after_ttl :
  prune 301001 idle_session = (initial, ["s1"]) /\
  prune 301000 idle_session = (idle_session, []).
Proof. split; reflexivity. Qed.

Example post_without_body_is_internal_error :
  mcpHandler Handled 0 0%nat (mkRequest "POST" ∅ None) initial
    = (initial,
       Replied (InternalError "Cannot read properties of undefined (reading 'method')" JNull)).
Proof. reflexivity. Qed.

(** ** Header Normalizer *)

Lemma getHeaderValue_absent (headers : Headers) (name : string) :
  headers !! name = None -> getHeaderValue headers name = None.
Proof. intros H. unfold getHeaderValue. now rewrite H. Qed.

Lemma getHeaderValue_single (headers : Headers) (name s : string) :
  headers !! name = Some (HSingle s) ->
  getHeaderValue headers name = if String.eqb s "" then None else Some s.
Proof. intros H. unfold getHeaderValue. rewrite H. simpl. now destruct (String.eqb s ""). Qed.

Lemma getHeaderValue_multi (headers : Headers) (name : string) (l : list string) :
  headers !! name = Some (HMulti l) -> getHeaderValue headers name = head l.
Proof. intros H. unfold getHeaderValue. now rewrite H. Qed.

(** C4, as stated, fails: a header holding the single string value [""] is
    normalized to an absent result, not to that value. *)
Lemma getHeaderValue_empty_string_counterexample :
  let headers : Headers := {[ "x-salesforce-instance-url" := HSingle "" ]} in
  headers !! "x-salesforce-instance-url" = Some (HSingle "") /\
  getHeaderValue headers "x-salesforce-instance-url" = None /\
  getHeaderValue headers "x-salesforce-instance-url" <> Some "".
Proof. vm_compute. repeat split; discriminate. Qed.

(** C4 (amended): for every header store and header name, normalization is a
    function of the store and the name alone such that: an absent header gives
    an absent result; a header holding a single non-empty string gives that
    string; a header holding the single empty string gives an absent result; a
    header holding an ordered list of strings gives the first element of the
    list (absent for the empty list). *)
Theorem getHeaderValue_normalizes (headers : Headers) (name : string) :
  (headers !! name = None -> getHeaderValue headers name = None) /\
  (forall s, headers !! name = Some (HSingle s) -> s <> "" ->
             getHeaderValue headers name = Some s) /\
  (headers !! name = Some (HSingle "") -> getHeaderValue headers name = None) /\
  (forall v vs, headers !! name = Some (HMulti (v :: vs)) ->
                getHeaderValue headers name = Some v) /\
  (headers !! name = Some (HMulti []) -> getHeaderValue headers name = None).
Proof.
  repeat split.
  - apply getHeaderValue_absent.
  - intros s H Hs. rewrite (getHeaderValue_single _ _ _ H).
    destruct (String.eqb_spec s ""); congruence.
  - intros H. now rewrite (getHeaderValue_single _ _ _ H).
  - intros v vs H. now rewrite (getHeaderValue_multi _ _ _ H).
  - intros H. now rewrite (getHeaderValue_multi _ _ _ H).
Qed.

Lemma getHeaderValue_normalizes_witness :
  getHeaderValue (∅ : Headers) "authorization" = None /\
  getHeaderValue ({[ "authorization" := HSingle "Bearer abc" ]} : Headers) "authorization"
    = Some "Bearer abc" /\
  getHeaderValue ({[ "authorization" := HSingle "" ]} : Headers) "authorization" = None /\
  getHeaderValue ({[ "authorization" := HMulti ["a"; "b"] ]} : Headers) "authorization"
    = Some "a" /\
  getHeaderValue ({[ "authorization" := HMulti [] ]} : Headers) "authorization" = None.
Proof.
  split; [| split; [| split; [| split]]].
  - exact (proj1 (getHeaderValue_normalizes ∅ "authorization") eq_refl).
  - refine (proj1 (proj2 (getHeaderValue_normalizes
             {[ "authorization" := HSingle "Bearer abc" ]} "authorization")) _ eq_refl _).
    discriminate.
  - exact (proj1 (proj2 (proj2 (getHeaderValue_normalizes
             {[ "authorization" := HSingle "" ]} "authorization"))) eq_refl).
  - exact (proj1 (proj2 (proj2 (proj2 (getHeaderValue_normalizes
             {[ "authorization" := HMulti ["a"; "b"] ]} "authorization")))) _ _ eq_refl).
  - exact (proj2 (proj2 (proj2 (proj2 (getHeaderValue_normalizes
             {[ "authorization" := HMulti [] ]} "authorization")))) eq_refl).
Defined.

(** ** [Map] lemmas *)

Section JsMapFacts.

Context {V : Type}.
Implicit Types (m : JsMap.t V) (k : string) (v : V).

Lemma get_None_keys m k : JsMap.get k m = None <-> ~ In k (JsMap.keys m).
Proof.
  induction m as [| [k' v'] m IH]; simpl.
  - tauto.
  - destruct (String.eqb_spec k' k) as [-> | Hne]; split.
    + discriminate.
    + intros H. exfalso. apply H. now left.
    + intros H [Heq | Hin]; [congruence | now apply IH].
    + intros H. apply IH. tauto.
Qed.

Lemma get_Some_In m k v : JsMap.get k m = Some v -> In (k, v) m.
Proof.
  induction m as [| [k' v'] m IH]; simpl; [discriminate |].
  destruct (String.eqb_spec k' k) as [-> | Hne].
  - intros [= ->]. now left.
  - intros H. right. now apply IH.
Qed.

Lemma In_get_wf m k v : JsMap.wf m -> In (k, v) m -> JsMap.get k m = Some v.
Proof.
  unfold JsMap.wf. induction m as [| [k' v'] m IH]; simpl; [tauto |].
  intros Hnd [Heq | Hin].
  - injection Heq as -> ->. now rewrite String.eqb_refl.
  - inversion Hnd as [| ? ? Hnotin Hnd']; subst.
    destruct (String.eqb_spec k' k) as [-> | Hne].
    + exfalso. apply Hnotin. change k with (fst (k, v)). now apply in_map.
    + now apply IH.
Qed.

Lemma keys_delete m k :
  JsMap.keys (JsMap.delete k m) =
  List.filter (fun k' => negb (String.eqb k' k)) (JsMap.keys m).
Proof.
  induction m as [| [k' v'] m IH]; simpl; [reflexivity |].
  destruct (String.eqb k' k); simpl; now rewrite IH.
Qed.

Lemma In_keys_delete m k k' :
  In k' (JsMap.keys (JsMap.delete k m)) <-> k' <> k /\ In k' (JsMap.keys m).
Proof.
  rewrite keys_delete, filter_In.
  destruct (String.eqb_spec k' k); simpl; split; intros H; try tauto.
  destruct H; discriminate.
Qed.

Lemma get_delete_eq m k : JsMap.get k (JsMap.delete k m) = None.
Proof. apply get_None_keys. rewrite In_keys_delete. tauto. Qed.

Lemma get_delete_ne m k k' : k <> k' -> JsMap.get k' (JsMap.delete k m) = JsMap.get k' m.
Proof.
  intros Hne. induction m as [| [k0 v0] m IH]; simpl; [reflexivity |].
  destruct (String.eqb_spec k0 k) as [-> | Hk]; simpl.
  - destruct (String.eqb_spec k k'); [contradiction | exact IH].
  - destruct (String.eqb_spec k0 k'); [reflexivity | exact IH].
Qed.

Lemma delete_absent m k : ~ In k (JsMap.keys m) -> JsMap.delete k m = m.
Proof.
  induction m as [| [k' v'] m IH]; simpl; [reflexivity |].
  intros H. destruct (String.eqb_spec k' k) as [-> | Hne]; simpl.
  - exfalso. apply H. now left.
  - f_equal. apply IH. tauto.
Qed.

Lemma delete_idemp m k : JsMap.delete k (JsMap.delete k m) = JsMap.delete k m.
Proof. apply delete_absent. rewrite In_keys_delete. tauto. Qed.

Lemma delete_comm m k k' :
  JsMap.delete k (JsMap.delete k' m) = JsMap.delete k' (JsMap.delete k m).
Proof.
  induction m as [| [k0 v0] m IH]; simpl; [reflexivity |].
  destruct (String.eqb k0 k') eqn:E1, (String.eqb k0 k) eqn:E2; simpl;
    rewrite ?E1, ?E2; simpl; now rewrite IH.
Qed.

Lemma wf_delete m k : JsMap.wf m -> JsMap.wf (JsMap.delete k m).
Proof. unfold JsMap.wf. rewrite keys_delete. apply List.NoDup_filter. Qed.

Lemma keys_set m k v :
  JsMap.keys (JsMap.set k v m) =
  if JsMap.has k m then JsMap.keys m else (JsMap.keys m ++ [k])%list.
Proof.
  unfold JsMap.has. induction m as [| [k' v'] m IH]; simpl; [reflexivity |].
  destruct (String.eqb_spec k' k) as [-> | Hne]; simpl; [reflexivity |].
  rewrite IH. now destruct (JsMap.get k m).
Qed.

Lemma wf_set m k v : JsMap.wf m -> JsMap.wf (JsMap.set k v m).
Proof.
  unfold JsMap.wf. intros H. rewrite keys_set. unfold JsMap.has.
  destruct (JsMap.get k m) eqn:E; [exact H |].
  apply get_None_keys in E.
  apply List.NoDup_app; [exact H | repeat constructor; simpl; tauto |].
  intros x Hx [<- | []]. contradiction.
Qed.

Lemma get_set_eq m k v : JsMap.get k (JsMap.set k v m) = Some v.
Proof.
  induction m as [| [k' v'] m IH]; simpl.
  - now rewrite String.eqb_refl.
  - destruct (String.eqb k' k) eqn:E; simpl; now rewrite E.
Qed.

Lemma get_set_ne m k k' v : k <> k' -> JsMap.get k' (JsMap.set k v m) = JsMap.get k' m.
Proof.
  intros Hne. induction m as [| [k0 v0] m IH]; simpl.
  - destruct (String.eqb_spec k k'); [contradiction | reflexivity].
  - destruct (String.eqb_spec k0 k) as [-> | Hk]; simpl.
    + destruct (String.eqb_spec k k'); [contradiction | reflexivity].
    + destruct (String.eqb_spec k0 k'); [reflexivity | exact IH].
Qed.

End JsMapFacts.

(** ** Auth Gate *)

Lemma subject_to_auth_inv req :
  subject_to_auth req = true ->
  String.eqb (req_method req) "GET" = false /\
  includes skipAuthMethods (opt_chain (req_body req) "method") = false.
Proof.
  unfold subject_to_auth. intros H. apply andb_true_iff in H as [H1 H2].
  now apply negb_true_iff in H1, H2.
Qed.

Lemma gate_bypass req :
  subject_to_auth req = false -> salesforceOAuthMiddleware req = Next None.
Proof.
  unfold subject_to_auth, salesforceOAuthMiddleware.
  destruct (String.eqb (req_method req) "GET"); [reflexivity |].
  destruct (includes skipAuthMethods (opt_chain (req_body req) "method"));
    [reflexivity | cbn [negb andb]; discriminate].
Qed.



Lemma startsWith_nonempty a p : p <> "" -> startsWith a p = true -> a <> "".
Proof. intros Hp H ->. destruct p; [contradiction | discriminate]. Qed.


Lemma gate_accepts req a :
  subject_to_auth req = true ->
  getHeaderValue (req_headers req) "authorization" = Some a ->
  startsWith a "Bearer " = true -> trim (substring_from 7 a) <> "" ->
  exists ctx, salesforceOAuthMiddleware req = Next (Some ctx) /\
              accessToken ctx = trim (substring_from 7 a).
Proof.
  intros Hs Ha Hp Ht. apply subject_to_auth_inv in Hs as [Hget Hskip].
  unfold salesforceOAuthMiddleware. rewrite Hget, Hskip, Ha, Hp.
  assert (a <> "") as Hne by (eapply startsWith_nonempty; [| exact Hp]; discriminate).
  destruct (String.eqb_spec a ""); [contradiction |].
  destruct (String.eqb_spec (trim (substring_from 7 a)) ""); [contradiction |].
  simpl. eexists. split; reflexivity.
Qed.

(** Every rejection of the gate is a 401 carrying the gate's correlation id. *)
Lemma gate_rejection_shape req resp :
  salesforceOAuthMiddleware req = Rejected resp ->
  status resp = 401 /\ code resp = -32000 /\ id resp = gate_request_id req.
Proof.
  unfold salesforceOAuthMiddleware, gate_request_id.
  destruct (String.eqb (req_method req) "GET"); [discriminate |].
  destruct (includes skipAuthMethods (opt_chain (req_body req) "method")); [discriminate |].
  destruct (getHeaderValue (req_headers req) "authorization") as [a |].
  - destruct (String.eqb a ""); [intros [= <-]; auto |].
    destruct (startsWith a "Bearer "); cbn [negb]; [| intros [= <-]; auto].
    destruct (String.eqb (trim (substring_from 7 a)) ""); [intros [= <-]; auto | discriminate].
  - intros [= <-]; auto.
Qed.

(** What the gate does on a request it authenticates, in terms of the token
    the resolver extracts from the same headers. *)
Lemma gate_by_bearer_token req :
  subject_to_auth req = true ->
  match bearer_token (req_headers req) with
  | Some token =>
      salesforceOAuthMiddleware req =
        Next (Some {| accessToken := token;
                      instanceUrl :=
                        (let i := getHeaderValue (req_headers req) "x-salesforce-instance-url" in
                         if str_falsy i then None else i);
                      userId := None |})
  | None => exists resp, salesforceOAuthMiddleware req = Rejected resp
  end.
Proof.
  intros Hs. apply subject_to_auth_inv in Hs as [Hget Hskip].
  unfold bearer_token, salesforceOAuthMiddleware. rewrite Hget, Hskip.
  destruct (getHeaderValue (req_headers req) "authorization") as [a |]; [| eauto].
  destruct (String.eqb a ""); cbn [orb]; [eauto |].
  destruct (startsWith a "Bearer "); cbn [negb]; [| eauto].
  destruct (String.eqb (trim (substring_from 7 a)) ""); eauto.
Qed.






(** ** Correlation ids of error responses *)

Lemma nullish_echo (v : Json) (d : Json) : v <> JNull -> nullish (Some v) d = v.
Proof. intros H. destruct v; try reflexivity. contradiction. Qed.

Lemma nullish_unavailable (v : JsVal) (d : Json) :
  v = None \/ v = Some JNull -> nullish v d = d.
Proof. now intros [-> | ->]. Qed.

Lemma member_opt_chain (o : JsVal) (k : string) (v : JsVal) :
  member o k = Normal v -> v = opt_chain o k.
Proof. destruct o as [[] |]; simpl; congruence. Qed.

Lemma route_rejection req st r :
  route req st = Normal (inr r) ->
  status r = 400 /\ code r = -32000 /\ id r = handler_request_id req.
Proof.
  unfold route, handler_request_id.
  destruct (header_falsy (req_headers req !! "mcp-session-id") &&
            String.eqb (req_method req) "POST").
  - destruct (member (req_body req) "method") as [m |] eqn:Em; simpl; [| discriminate].
    destruct (strict_eq_str m "initialize"); [discriminate |].
    destruct (member (req_body req) "id") as [i |] eqn:Ei; simpl; [| discriminate].
    intros [= <-]. apply member_opt_chain in Ei. subst i. auto.
  - destruct (lookup_transport (req_headers req !! "mcp-session-id") st);
      [discriminate |]. intros [= <-]. auto.
Qed.

Lemma mcpHandler_reply h now res req st st' resp :
  mcpHandler h now res req st = (st', Replied resp) ->
  (status resp = 400 \/ status resp = 500) /\ id resp = handler_request_id req.
Proof.
  unfold mcpHandler. fold (handler_request_id req).
  destruct (route req st) as [[t | r] | msg] eqn:Er.
  - cbv zeta. destruct (settle h) as [[m sent] |]; [| discriminate].
    destruct sent; [discriminate |]. intros [= _ <-]. auto.
  - intros [= _ <-]. apply route_rejection in Er. tauto.
  - intros [= _ <-]. auto.
Qed.

Lemma legacy_mcpHandler_reply h req st st' resp :
  Legacy.mcpHandler h req st = (st', Replied resp) ->
  (status resp = 400 \/ status resp = 500) /\ id resp = handler_request_id req.
Proof.
  unfold Legacy.mcpHandler. fold (handler_request_id req).
  destruct (route req st) as [[t | r] | msg] eqn:Er.
  - cbv zeta. destruct (settle h) as [[m sent] |]; [| discriminate].
    destruct sent; [discriminate |]. intros [= _ <-]. auto.
  - intros [= _ <-]. apply route_rejection in Er. tauto.
  - intros [= _ <-]. auto.
Qed.

(** Where an error reply of either revision of the server comes from. *)
Lemma serve_reply_origin h now res req st st' resp :
  serve h now res req st = (st', Replied resp) \/
  Legacy.serve h req st = (st', Replied resp) ->
  (salesforceOAuthMiddleware req = Rejected resp /\ status resp = 401 /\
   id resp = gate_request_id req) \/
  ((exists ctx, salesforceOAuthMiddleware req = Next ctx) /\
   (status resp = 400 \/ status resp = 500) /\ id resp = handler_request_id req).
Proof.
  unfold serve, Legacy.serve.
  destruct (salesforceOAuthMiddleware req) as [ctx | r] eqn:Eg.
  - intros [H | H]; right; (split; [eauto |]).
    + eapply mcpHandler_reply; eauto.
    + eapply legacy_mcpHandler_reply; eauto.
  - intros H. left.
    assert (r = resp) as -> by (destruct H as [H | H]; congruence).
    apply gate_rejection_shape in Eg. tauto.
Qed.

(** C2, as stated, fails: an auth-gate rejection of a call that carries no
    correlation id has the string ["unknown"] as its [id], not [null]. *)
Lemma gate_error_id_unknown_counterexample :
  let req := mkRequest "POST" ∅ (Some (JObj [("method", JStr "tools/list")])) in
  opt_chain (req_body req) "id" = None /\
  exists resp, serve Handled 0 0%nat req initial = (initial, Replied resp) /\
               id resp = JStr "unknown" /\ id resp <> JNull.
Proof.
  split; [reflexivity |]. eexists. split; [reflexivity |].
  split; [reflexivity | discriminate].
Qed.

(** C2 (amended): every protocol-level error response returned by the server
    (auth-gate rejections, session rejections and internal errors, in both
    revisions of the server) carries an [id] that echoes the originating call's
    correlation id when the body has one that is not [null]; when the
    correlation id is unavailable the [id] is the string ["unknown"] in an
    auth-gate rejection (HTTP 401) and [null] in a session rejection (HTTP 400)
    or an internal error (HTTP 500). *)
Theorem error_response_correlation_id
    (h : HandleOutcome) (now : Z) (res : Stream) (req : Request)
    (st st' : ServerState) (resp : ErrorResponse) :
  serve h now res req st = (st', Replied resp) \/
  Legacy.serve h req st = (st', Replied resp) ->
  let cid := opt_chain (req_body req) "id" in
  (forall v, cid = Some v -> v <> JNull -> id resp = v) /\
  (cid = None \/ cid = Some JNull ->
     (status resp = 401 -> id resp = JStr "unknown") /\
     (status resp <> 401 -> id resp = JNull)) /\
  (status resp = 401 <-> salesforceOAuthMiddleware req = Rejected resp) /\
  (status resp = 401 \/ status resp = 400 \/ status resp = 500).
Proof.
  intros H cid. apply serve_reply_origin in H.
  destruct H as [(Hg & Hs & Hid) | ((ctx & Hg) & Hs & Hid)];
    unfold gate_request_id, handler_request_id in Hid; fold cid in Hid.
  - repeat split.
    + intros v Hv Hn. rewrite Hid, Hv. now apply nullish_echo.
    + intros _. rewrite Hid. now apply nullish_unavailable.
    + intros Hne. contradiction.
    + intros _. exact Hg.
    + intros _. exact Hs.
    + now left.
  - repeat split.
    + intros v Hv Hn. rewrite Hid, Hv. now apply nullish_echo.
    + intros H401. destruct Hs; lia.
    + intros _. rewrite Hid. now apply nullish_unavailable.
    + intros H401. destruct Hs; lia.
    + intros Hr. congruence.
    + right. exact Hs.
Qed.

Lemma error_response_correlation_id_witness :
  serve Handled 0 0%nat
    (mkRequest "POST" {[ "mcp-session-id" := HSingle "stale" ]}
       (Some (JObj [("method", JStr "initialize"); ("id", JNum 5)])))
    initial = (initial, Replied (InvalidSession (JNum 5))) /\
  id (InvalidSession (JNum 5)) = JNum 5.
Proof.
  split; [reflexivity |].
  refine (proj1 (error_response_correlation_id Handled 0 0%nat
            (mkRequest "POST" {[ "mcp-session-id" := HSingle "stale" ]}
               (Some (JObj [("method", JStr "initialize"); ("id", JNum 5)])))
            initial initial (InvalidSession (JNum 5)) (or_introl eq_refl))
            (JNum 5) eq_refl _).
  discriminate.
Defined.

(** ** Session routing *)

Lemma header_falsy_session_key (sessionId : option HeaderValue) :
  header_falsy sessionId = true -> session_key sessionId = None.
Proof.
  destruct sessionId as [[s | l] |]; simpl; try reflexivity; try discriminate.
  now intros ->.
Qed.

Lemma track_without_session req res now st :
  session_key (req_headers req !! "mcp-session-id") = None ->
  track req res now st = st.
Proof.
  intros H. unfold track. rewrite H.
  destruct (String.eqb (req_method req) "POST" &&
            truthy (opt_chain (req_body req) "method")); [reflexivity |].
  destruct (String.eqb (req_method req) "GET"); [reflexivity |].
  now destruct (String.eqb (req_method req) "DELETE").
Qed.


(** Routing of a request whose session id is not a key of [transports]. *)
Lemma route_unregistered req st :
  header_falsy (req_headers req !! "mcp-session-id") = false ->
  lookup_transport (req_headers req !! "mcp-session-id") st = None ->
  route req st = Normal (inr (InvalidSession (handler_request_id req))).
Proof.
  intros Hsid Hl. unfold route. now rewrite Hsid, Hl.
Qed.

Lemma serve_passed h now res req st ctx :
  salesforceOAuthMiddleware req = Next ctx ->
  serve h now res req st = mcpHandler h now res req st /\
  Legacy.serve h req st = Legacy.mcpHandler h req st.
Proof. intros H. unfold serve, Legacy.serve. now rewrite H. Qed.



(** The handler on a request that routing hands to a transport. *)
Lemma mcpHandler_routed h now res req st tr :
  route req st = Normal (inl tr) ->
  mcpHandler h now res req st =
    (run_callbacks h tr req (track req res now st),
     match settle h with
     | None => Delegated tr
     | Some (msg, headersSent) =>
         if headersSent then Aborted msg
         else Replied (InternalError msg (handler_request_id req))
     end).
Proof.
  intros Hr. unfold mcpHandler. rewrite Hr. cbv zeta. fold (handler_request_id req).
  destruct (settle h) as [[msg sent] |]; [| reflexivity]. now destruct sent.
Qed.

Lemma legacy_mcpHandler_routed h req st tr :
  route req st = Normal (inl tr) ->
  Legacy.mcpHandler h req st =
    (Legacy.run_callbacks h tr req st,
     match settle h with
     | None => Delegated tr
     | Some (msg, headersSent) =>
         if headersSent then Aborted msg
         else Replied (InternalError msg (handler_request_id req))
     end).
Proof.
  intros Hr. unfold Legacy.mcpHandler. rewrite Hr. cbv zeta.
  fold (handler_request_id req).
  destruct (settle h) as [[msg sent] |]; [| reflexivity]. now destruct sent.
Qed.

Lemma mcpHandler_rejected h now res req st r :
  route req st = Normal (inr r) ->
  mcpHandler h now res req st = (st, Replied r) /\
  Legacy.mcpHandler h req st = (st, Replied r).
Proof. intros Hr. unfold mcpHandler, Legacy.mcpHandler. now rewrite Hr. Qed.





(** ** Teardown of several sessions *)

Section DeleteAll.

Context {V : Type}.
Implicit Types (m : JsMap.t V) (k : string) (ks : list string).

Lemma In_keys_delete_all ks m k :
  In k (JsMap.keys (delete_all ks m)) <-> ~ In k ks /\ In k (JsMap.keys m).
Proof.
  revert m. induction ks as [| k0 ks IH]; intros m; simpl.
  - tauto.
  - rewrite IH, In_keys_delete. split.
    + intros (H1 & H2 & H3). split; [| exact H3]. intros [-> | H]; tauto.
    + intros (H1 & H2). repeat split; try tauto. intros ->. tauto.
Qed.

Lemma get_delete_all_notin ks m k :
  ~ In k ks -> JsMap.get k (delete_all ks m) = JsMap.get k m.
Proof.
  revert m. induction ks as [| k0 ks IH]; intros m H; simpl; [reflexivity |].
  simpl in H. rewrite IH by tauto. apply get_delete_ne. tauto.
Qed.

Lemma get_delete_all_in ks m k : In k ks -> JsMap.get k (delete_all ks m) = None.
Proof. intros H. apply get_None_keys. rewrite In_keys_delete_all. tauto. Qed.

Lemma wf_delete_all ks m : JsMap.wf m -> JsMap.wf (delete_all ks m).
Proof.
  revert m. induction ks as [| k0 ks IH]; intros m H; simpl; [exact H |].
  apply IH. now apply wf_delete.
Qed.

End DeleteAll.

Lemma destroy_all_maps ks st :
  destroy_all ks st =
  {| transports := delete_all ks (transports st);
     mcpServers := delete_all ks (mcpServers st);
     sseStreams := delete_all ks (sseStreams st);
     sessionActivity := delete_all ks (sessionActivity st) |}.
Proof.
  revert st. induction ks as [| k ks IH]; intros st; simpl.
  - now destruct st.
  - unfold destroy_all in IH. now rewrite IH.
Qed.

Lemma streamClosed_destroy sid st : streamClosed sid st = destroy sid st.
Proof. reflexivity. Qed.

Lemma absent_destroy sid st : absent sid (destroy sid st).
Proof. unfold absent, destroy. simpl. rewrite !In_keys_delete. tauto. Qed.

Lemma destroy_absent sid st : absent sid st -> destroy sid st = st.
Proof.
  intros (H1 & H2 & H3 & H4). unfold destroy.
  rewrite !delete_absent by assumption. now destruct st.
Qed.

Lemma destroy_idempotent sid st : destroy sid (destroy sid st) = destroy sid st.
Proof. apply destroy_absent, absent_destroy. Qed.

Lemma absent_destroy_all sid ks st :
  In sid ks \/ absent sid st -> absent sid (destroy_all ks st).
Proof.
  rewrite destroy_all_maps. unfold absent. simpl.
  rewrite !In_keys_delete_all. tauto.
Qed.

Lemma absent_lookup sid st :
  absent sid st ->
  JsMap.get sid (transports st) = None /\ JsMap.get sid (mcpServers st) = None /\
  JsMap.get sid (sseStreams st) = None /\ JsMap.get sid (sessionActivity st) = None.
Proof. unfold absent. rewrite <- !get_None_keys. tauto. Qed.

(** ** Idle prune *)

Lemma prune_fold now l acc :
  fold_left (prune_entry now) l acc =
  (destroy_all (evicted_ids now l) (fst acc), (snd acc ++ evicted_ids now l)%list).
Proof.
  revert acc. induction l as [| [k t] l IH]; intros [st ev]; simpl.
  - now rewrite app_nil_r.
  - rewrite IH. unfold evicted_ids, expired. simpl.
    destruct (now - t >? sessionTtlMs); simpl; [| reflexivity].
    now rewrite <- app_assoc.
Qed.

Lemma prune_spec now st :
  prune now st = (destroy_all (evicted_ids now (sessionActivity st)) st,
                  evicted_ids now (sessionActivity st)).
Proof. unfold prune. now rewrite prune_fold. Qed.

Lemma In_evicted_ids now activity sid :
  In sid (evicted_ids now activity) <->
  exists lastSeen, In (sid, lastSeen) activity /\ now - lastSeen > sessionTtlMs.
Proof.
  unfold evicted_ids, JsMap.keys. rewrite in_map_iff. split.
  - intros ([k t] & Hk & Hin). simpl in Hk. subst k.
    apply filter_In in Hin as [Hin He]. unfold expired in He. simpl in He.
    exists t. split; [exact Hin | lia].
  - intros (t & Hin & Ht). exists (sid, t). split; [reflexivity |].
    apply filter_In. split; [exact Hin |]. unfold expired. simpl. lia.
Qed.

Lemma evicted_ids_keys now activity sid :
  In sid (evicted_ids now activity) -> In sid (JsMap.keys activity).
Proof.
  rewrite In_evicted_ids. intros (t & Hin & _).
  change sid with (fst (sid, t)). now apply in_map.
Qed.

Lemma NoDup_evicted_ids now activity :
  JsMap.wf activity -> List.NoDup (evicted_ids now activity).
Proof.
  unfold JsMap.wf, evicted_ids, JsMap.keys.
  induction activity as [| [k t] l IH]; simpl; intros H; [constructor |].
  inversion H as [| ? ? Hnotin Hnd]; subst.
  destruct (expired now (k, t)); simpl; [| now apply IH].
  constructor; [| now apply IH].
  intros Hin. apply Hnotin. apply in_map_iff in Hin as ([k' t'] & Hk & Hin).
  simpl in Hk. subst k'. apply filter_In in Hin as [Hin _].
  change k with (fst (k, t')). now apply in_map.
Qed.

(** ** Keepalive *)

Lemma keepalive_fold write l st :
  fold_left (keepalive_entry write) l st =
  {| transports := transports st;
     mcpServers := mcpServers st;
     sseStreams := delete_all (failed_ids write l) (sseStreams st);
     sessionActivity := delete_all (failed_ids write l) (sessionActivity st) |}.
Proof.
  revert st. induction l as [| [k s] l IH]; intros st; simpl.
  - now destruct st.
  - rewrite IH. unfold failed_ids, write_failed. simpl.
    now destruct (write k s).
Qed.

Lemma keepalive_spec write st :
  keepalive write st =
  {| transports := transports st;
     mcpServers := mcpServers st;
     sseStreams := delete_all (failed_ids write (sseStreams st)) (sseStreams st);
     sessionActivity := delete_all (failed_ids write (sseStreams st)) (sessionActivity st) |}.
Proof.
  unfold keepalive. destruct (sseStreams st) as [| e l] eqn:E.
  - simpl. destruct st; simpl in *. now subst.
  - change (0 <? JsMap.size (e :: l))%nat with true. cbv iota.
    rewrite <- E. apply keepalive_fold.
Qed.

Lemma In_failed_ids write streams sid :
  In sid (failed_ids write streams) <->
  exists stream msg, In (sid, stream) streams /\ write sid stream = WriteThrows msg.
Proof.
  unfold failed_ids, JsMap.keys. rewrite in_map_iff. split.
  - intros ([k s] & Hk & Hin). simpl in Hk. subst k.
    apply filter_In in Hin as [Hin Hf]. unfold write_failed in Hf. simpl in Hf.
    destruct (write sid s) as [| | msg] eqn:E; try discriminate. eauto.
  - intros (s & msg & Hin & Hw). exists (sid, s). split; [reflexivity |].
    apply filter_In. split; [exact Hin |]. unfold write_failed. simpl. now rewrite Hw.
Qed.

Lemma not_failed_wf write streams sid :
  JsMap.wf streams ->
  (forall stream msg, JsMap.get sid streams = Some stream ->
                      write sid stream <> WriteThrows msg) ->
  ~ In sid (failed_ids write streams).
Proof.
  intros Hwf Hok Hin. apply In_failed_ids in Hin as (s & msg & Hin & Hw).
  apply (Hok s msg); [now apply In_get_wf | exact Hw].
Qed.

Lemma failed_registered write streams sid stream msg :
  JsMap.get sid streams = Some stream -> write sid stream = WriteThrows msg ->
  In sid (failed_ids write streams).
Proof.
  intros Hg Hw. apply In_failed_ids. exists stream, msg.
  split; [now apply get_Some_In | exact Hw].
Qed.

(** C1, as stated, fails twice: a keepalive write rejected with backpressure
    leaves the stream reference in place, and a keepalive write that throws
    removes the session's activity record together with the stream
    reference. *)
Lemma keepalive_failure_counterexample :
  streaming_session =
    {| transports := [("s1", 1%nat)]; mcpServers := [("s1", 2%nat)];
       sseStreams := [("s1", 3%nat)]; sessionActivity := [("s1", 2000)] |} /\
  JsMap.get "s1" (sseStreams (keepalive (fun _ _ => Backpressure) streaming_session))
    = Some 3%nat /\
  JsMap.get "s1" (sessionActivity streaming_session) = Some 2000 /\
  JsMap.get "s1" (sessionActivity (keepalive (fun _ _ => WriteThrows "EPIPE") streaming_session))
    = None.
Proof. vm_compute. repeat split. Qed.

(** C1 (amended): for every session with a registered open event stream, if
    the periodic keepalive write to that stream raises an exception, the
    Liveness Manager removes that session's stream reference and its activity
    record; if the write is rejected with backpressure (it returns false), or
    succeeds, the stream reference and the activity record stay as they were.
    In every case the transport and handler registrations of all sessions are
    unchanged (no session is closed), and a session whose own write did not
    raise keeps its stream reference and activity record. *)
Theorem keepalive_write_outcomes
    (write : string -> Stream -> WriteResult) (st : ServerState)
    (sid : string) (stream : Stream) :
  JsMap.wf (sseStreams st) ->
  JsMap.get sid (sseStreams st) = Some stream ->
  let st' := keepalive write st in
  transports st' = transports st /\
  mcpServers st' = mcpServers st /\
  (forall msg, write sid stream = WriteThrows msg ->
     JsMap.get sid (sseStreams st') = None /\
     JsMap.get sid (sessionActivity st') = None) /\
  (write sid stream = Backpressure \/ write sid stream = Written ->
     JsMap.get sid (sseStreams st') = Some stream /\
     JsMap.get sid (sessionActivity st') = JsMap.get sid (sessionActivity st)) /\
  (forall sid',
     (forall stream' msg, JsMap.get sid' (sseStreams st) = Some stream' ->
                          write sid' stream' <> WriteThrows msg) ->
     JsMap.get sid' (sseStreams st') = JsMap.get sid' (sseStreams st) /\
     JsMap.get sid' (sessionActivity st') = JsMap.get sid' (sessionActivity st)).
Proof.
  intros Hwf Hget st'. unfold st'. rewrite keepalive_spec. simpl.
  assert (Hother : forall sid',
     (forall stream' msg, JsMap.get sid' (sseStreams st) = Some stream' ->
                          write sid' stream' <> WriteThrows msg) ->
     JsMap.get sid' (delete_all (failed_ids write (sseStreams st)) (sseStreams st))
       = JsMap.get sid' (sseStreams st) /\
     JsMap.get sid' (delete_all (failed_ids write (sseStreams st)) (sessionActivity st))
       = JsMap.get sid' (sessionActivity st)).
  { intros sid' Hok. pose proof (not_failed_wf write _ sid' Hwf Hok) as Hnot.
    split; now apply get_delete_all_notin. }
  split; [reflexivity |]. split; [reflexivity |]. split; [| split].
  - intros msg Hw. pose proof (failed_registered write _ sid stream msg Hget Hw) as Hin.
    split; now apply get_delete_all_in.
  - intros Hw. rewrite <- Hget. apply Hother.
    intros stream' msg Hg'. rewrite Hget in Hg'. injection Hg' as <-.
    destruct Hw as [-> | ->]; discriminate.
  - exact Hother.
Qed.

Lemma keepalive_write_outcomes_witness :
  JsMap.get "s1" (sseStreams (keepalive (fun _ _ => WriteThrows "EPIPE") streaming_session))
    = None /\
  JsMap.get "s1" (sessionActivity (keepalive (fun _ _ => WriteThrows "EPIPE") streaming_session))
    = None.
Proof.
  refine (proj1 (proj2 (proj2 (keepalive_write_outcomes (fun _ _ => WriteThrows "EPIPE")
            streaming_session "s1" 3%nat _ eq_refl))) "EPIPE" eq_refl).
  vm_compute. repeat constructor. simpl. tauto.
Defined.

(** ** Sweeps and sessions already torn down *)



Lemma absent_keepalive write sid st : absent sid st -> absent sid (keepalive write st).
Proof.
  rewrite keepalive_spec. unfold absent. simpl.
  rewrite !In_keys_delete_all. tauto.
Qed.

Lemma prune_absent now sid st :
  absent sid st -> ~ In sid (snd (prune now st)) /\ absent sid (fst (prune now st)).
Proof.
  intros Ha. rewrite prune_spec. simpl. split.
  - intros Hin. apply evicted_ids_keys in Hin. unfold absent in Ha. tauto.
  - apply absent_destroy_all. now right.
Qed.

Lemma prune_expired now sid lastSeen st :
  JsMap.get sid (sessionActivity st) = Some lastSeen ->
  now - lastSeen > sessionTtlMs ->
  In sid (snd (prune now st)) /\ absent sid (fst (prune now st)).
Proof.
  intros Hg Ht. rewrite prune_spec. simpl.
  assert (In sid (evicted_ids now (sessionActivity st))) as Hin.
  { apply In_evicted_ids. exists lastSeen. split; [now apply get_Some_In | exact Ht]. }
  split; [exact Hin |]. apply absent_destroy_all. now left.
Qed.

Lemma prune_untracked now sid st :
  JsMap.get sid (sessionActivity st) = None ->
  ~ In sid (snd (prune now st)) /\
  JsMap.get sid (transports (fst (prune now st))) = JsMap.get sid (transports st) /\
  JsMap.get sid (mcpServers (fst (prune now st))) = JsMap.get sid (mcpServers st) /\
  JsMap.get sid (sseStreams (fst (prune now st))) = JsMap.get sid (sseStreams st) /\
  JsMap.get sid (sessionActivity (fst (prune now st))) = None.
Proof.
  intros Hg. rewrite prune_spec, destroy_all_maps. simpl.
  assert (~ In sid (evicted_ids now (sessionActivity st))) as Hnot.
  { intros Hin. apply evicted_ids_keys in Hin. now apply get_None_keys in Hg. }
  split; [exact Hnot |].
  rewrite !get_delete_all_notin by exact Hnot. auto.
Qed.


Lemma session_key_truthy (sessionId : option HeaderValue) (sid : string) :
  session_key sessionId = Some sid ->
  sessionId = Some (HSingle sid) /\ header_falsy sessionId = false.
Proof.
  destruct sessionId as [[s | l] |]; simpl; try discriminate.
  destruct (String.eqb s ""); [discriminate |]. intros [= ->]. auto.
Qed.

Lemma mcpHandler_absent h now res req st sid :
  session_key (req_headers req !! "mcp-session-id") = Some sid ->
  JsMap.get sid (transports st) = None ->
  mcpHandler h now res req st = (st, Replied (InvalidSession (handler_request_id req))).
Proof.
  intros Hk Hg. unfold mcpHandler. rewrite route_unregistered; [reflexivity | |].
  - now apply session_key_truthy in Hk.
  - unfold lookup_transport. now rewrite Hk.
Qed.

Lemma track_delete req res now st sid :
  req_method req = "DELETE" ->
  session_key (req_headers req !! "mcp-session-id") = Some sid ->
  track req res now st = destroy sid st.
Proof. intros Hm Hk. unfold track. now rewrite Hm, Hk. Qed.

Lemma route_registered req st sid t :
  session_key (req_headers req !! "mcp-session-id") = Some sid ->
  JsMap.get sid (transports st) = Some t ->
  route req st = Normal (inl (Registered t)).
Proof.
  intros Hk Hg. unfold route.
  destruct (session_key_truthy _ _ Hk) as [_ Hf]. rewrite Hf. simpl.
  unfold lookup_transport. now rewrite Hk, Hg.
Qed.

(** On a registered transport the only callback is the close callback of a
    [DELETE], which finds the session already torn down by the handler. *)
Lemma run_callbacks_registered h t req st :
  (forall sid, req_method req = "DELETE" ->
               session_key (req_headers req !! "mcp-session-id") = Some sid ->
               destroy sid st = st) ->
  run_callbacks h (Registered t) req st = st.
Proof.
  intros Hfix. induction h as [| msg sent | cb rest IH]; simpl; try reflexivity.
  destruct cb as [s t' srv ts |]; simpl; [exact IH |].
  destruct (String.eqb_spec (req_method req) "DELETE") as [Hm | _]; [| exact IH].
  destruct (session_key (req_headers req !! "mcp-session-id")) as [sid |] eqn:Hk;
    [| exact IH].
  unfold onsessionclosed. now rewrite (Hfix sid Hm eq_refl).
Qed.

Lemma run_callbacks_after_track h t req res now st :
  run_callbacks h (Registered t) req (track req res now st) = track req res now st.
Proof.
  apply run_callbacks_registered. intros sid Hm Hk.
  rewrite (track_delete req res now st sid Hm Hk). apply destroy_idempotent.
Qed.

Lemma mcpHandler_registered h now res req st sid t :
  session_key (req_headers req !! "mcp-session-id") = Some sid ->
  JsMap.get sid (transports st) = Some t ->
  fst (mcpHandler h now res req st) = track req res now st.
Proof.
  intros Hk Hg.
  rewrite (mcpHandler_routed h now res req st _ (route_registered req st sid t Hk Hg)).
  apply run_callbacks_after_track.
Qed.


Lemma serve_registered h now res req st sid t ctx :
  salesforceOAuthMiddleware req = Next ctx ->
  session_key (req_headers req !! "mcp-session-id") = Some sid ->
  JsMap.get sid (transports st) = Some t ->
  fst (serve h now res req st) = track req res now st.
Proof.
  intros Hgate Hk Hg. rewrite (proj1 (serve_passed h now res req st ctx Hgate)).
  exact (mcpHandler_registered h now res req st sid t Hk Hg).
Qed.

Lemma keepalive_survivor write sid st :
  JsMap.wf (sseStreams st) -> write_survives write sid st ->
  JsMap.get sid (sessionActivity (keepalive write st)) = JsMap.get sid (sessionActivity st).
Proof.
  intros Hwf Hs. rewrite keepalive_spec. simpl.
  apply get_delete_all_notin. now apply not_failed_wf.
Qed.

(** C9, as stated, fails: a session with an open stream whose last activity is
    older than the idle threshold when the timer fires is not destroyed by
    that firing if its keepalive write throws, and no later firing destroys
    it. *)
Lemma idle_stream_failure_counterexample :
  let st1 := tick (fun _ _ => WriteThrows "EPIPE") 400000 streaming_session in
  JsMap.get "s1" (sessionActivity streaming_session) = Some 2000 /\
  400000 - 2000 > sessionTtlMs /\
  tick_evicted (fun _ _ => WriteThrows "EPIPE") 400000 streaming_session = [] /\
  JsMap.get "s1" (transports st1) = Some 1%nat /\
  JsMap.get "s1" (mcpServers st1) = Some 2%nat /\
  tick_evicted (fun _ _ => Written) 800000 st1 = [] /\
  JsMap.get "s1" (transports (tick (fun _ _ => Written) 800000 st1)) = Some 1%nat.
Proof. vm_compute. repeat split. Qed.

(** C9 (amended): session destruction is idempotent.  Tearing a session down
    twice is the same as tearing it down once; on a session that is already
    gone from the registry, the teardown block, the transport's close
    callback, the stream-close listener and an explicit [DELETE] (which is
    answered with the InvalidSession error when it passes the gate, not with
    an exception) leave the registry as it is, and a firing of the timer
    neither tears it down nor brings it back.  An explicit [DELETE] that
    passes the gate and is addressed to a registered session is that
    teardown, whatever the transport does.  A session whose [lastActivityAt]
    is older than the idle threshold when the timer fires is torn down exactly
    once by that firing, is gone afterwards, and is not torn down again by a
    later firing, provided its keepalive write in that firing does not throw;
    if the write throws, the firing deletes the activity record before the
    sweep and tears nothing down. *)
Theorem teardown_idempotent (st : ServerState) (sid : string) :
  destroy sid (destroy sid st) = destroy sid st /\
  absent sid (destroy sid st) /\
  (forall st0, absent sid st0 ->
     destroy sid st0 = st0 /\
     onsessionclosed sid st0 = st0 /\
     streamClosed sid st0 = st0 /\
     (forall h now res req,
        addressed_to sid req ->
        fst (serve h now res req st0) = st0 /\
        (forall ctx, salesforceOAuthMiddleware req = Next ctx ->
           serve h now res req st0 =
             (st0, Replied (InvalidSession (handler_request_id req))))) /\
     (forall write now,
        ~ In sid (tick_evicted write now st0) /\ absent sid (tick write now st0))) /\
  (forall h now res req t ctx,
     req_method req = "DELETE" ->
     addressed_to sid req ->
     JsMap.get sid (transports st) = Some t ->
     salesforceOAuthMiddleware req = Next ctx ->
     fst (serve h now res req st) = destroy sid st) /\
  (forall write now lastSeen,
     JsMap.wf (sessionActivity st) -> JsMap.wf (sseStreams st) ->
     JsMap.get sid (sessionActivity st) = Some lastSeen ->
     now - lastSeen > sessionTtlMs ->
     write_survives write sid st ->
     count_occ String.string_dec (tick_evicted write now st) sid = 1%nat /\
     absent sid (tick write now st) /\
     (forall write' now', ~ In sid (tick_evicted write' now' (tick write now st)))) /\
  (forall write now stream msg,
     JsMap.get sid (sseStreams st) = Some stream ->
     write sid stream = WriteThrows msg ->
     ~ In sid (tick_evicted write now st) /\
     JsMap.get sid (transports (tick write now st)) = JsMap.get sid (transports st) /\
     JsMap.get sid (mcpServers (tick write now st)) = JsMap.get sid (mcpServers st)).
Proof.
  assert (Habs : forall st0 write now, absent sid st0 ->
            ~ In sid (tick_evicted write now st0) /\ absent sid (tick write now st0)).
  { intros st0 write now Ha. unfold tick_evicted, tick.
    now apply prune_absent, absent_keepalive. }
  split; [apply destroy_idempotent |]. split; [apply absent_destroy |].
  split; [| split; [| split]].
  - intros st0 Ha. pose proof (destroy_absent sid st0 Ha) as Hd.
    split; [exact Hd |]. split; [exact Hd |].
    split; [now rewrite streamClosed_destroy |]. split.
    + intros h now res req Hk. unfold addressed_to in Hk.
      assert (Hh : mcpHandler h now res req st0 =
                   (st0, Replied (InvalidSession (handler_request_id req)))).
      { apply (mcpHandler_absent h now res req st0 sid Hk).
        now apply absent_lookup in Ha. }
      split.
      * unfold serve. destruct (salesforceOAuthMiddleware req); [| reflexivity].
        now rewrite Hh.
      * intros ctx Hgate.
        now rewrite (proj1 (serve_passed h now res req st0 ctx Hgate)).
    + intros write now. now apply Habs.
  - intros h now res req t ctx Hm Hk Hg Hgate. unfold addressed_to in Hk.
    rewrite (serve_registered h now res req st sid t ctx Hgate Hk Hg).
    now apply track_delete.
  - intros write now lastSeen Hwa Hws Hg Ht Hsurv.
    assert (Hk : JsMap.get sid (sessionActivity (keepalive write st)) = Some lastSeen).
    { now rewrite (keepalive_survivor write sid st Hws Hsurv). }
    destruct (prune_expired now sid lastSeen _ Hk Ht) as [Hin Ha].
    unfold tick_evicted at 1. fold (tick write now st) in Ha.
    split; [| split; [exact Ha |]].
    + apply NoDup_count_occ'; [| exact Hin].
      rewrite prune_spec. simpl. apply NoDup_evicted_ids.
      rewrite keepalive_spec. simpl. now apply wf_delete_all.
    + intros write' now'. now apply Habs.
  - intros write now stream msg Hs Hw.
    assert (Hk : JsMap.get sid (sessionActivity (keepalive write st)) = None).
    { rewrite keepalive_spec. simpl. apply get_delete_all_in.
      now apply (failed_registered write _ sid stream msg). }
    destruct (prune_untracked now sid _ Hk) as (Hn & Ht & Hm & _).
    unfold tick_evicted, tick. split; [exact Hn |].
    rewrite Ht, Hm, keepalive_spec. simpl. auto.
Qed.

Lemma teardown_idempotent_witness :
  count_occ String.string_dec
    (tick_evicted (fun _ _ => Backpressure) 400000 streaming_session) "s1" = 1%nat /\
  absent "s1" (tick (fun _ _ => Backpressure) 400000 streaming_session) /\
  ~ In "s1" (tick_evicted (fun _ _ => Written) 430000
               (tick (fun _ _ => Backpressure) 400000 streaming_session)).
Proof.
  assert (JsMap.wf (sessionActivity streaming_session) /\
          JsMap.wf (sseStreams streaming_session)) as [Hwa Hws].
  { split; vm_compute; repeat constructor; simpl; tauto. }
  assert (400000 - 2000 > sessionTtlMs) as Hold by (vm_compute; reflexivity).
  assert (write_survives (fun _ _ => Backpressure) "s1" streaming_session) as Hsurv.
  { intros stream msg _. discriminate. }
  destruct (proj1 (proj2 (proj2 (proj2 (proj2 (teardown_idempotent streaming_session "s1")))))
              (fun _ _ => Backpressure) 400000 2000 Hwa Hws eq_refl Hold Hsurv)
    as (Hcount & Habs & Hagain).
  split; [exact Hcount |]. split; [exact Habs |].
  exact (Hagain (fun _ _ => Written) 430000).
Defined.

(** ** What each event does to the registrations *)


Lemma route_inl_inv req st tr :
  route req st = Normal (inl tr) ->
  (tr = NewTransport /\ header_falsy (req_headers req !! "mcp-session-id") = true) \/
  (exists sid t, tr = Registered t /\
                 session_key (req_headers req !! "mcp-session-id") = Some sid /\
                 JsMap.get sid (transports st) = Some t).
Proof.
  unfold route.
  destruct (header_falsy (req_headers req !! "mcp-session-id")) eqn:Ef.
  - destruct (String.eqb (req_method req) "POST"); simpl.
    + destruct (member (req_body req) "method") as [m |]; simpl; [| discriminate].
      destruct (strict_eq_str m "initialize").
      * intros [= <-]. now left.
      * destruct (member (req_body req) "id"); simpl; discriminate.
    + rewrite (header_falsy_session_key _ Ef). unfold lookup_transport.
      rewrite (header_falsy_session_key _ Ef). discriminate.
  - simpl. unfold lookup_transport.
    destruct (session_key (req_headers req !! "mcp-session-id")) as [sid |] eqn:Ek;
      [| discriminate].
    destruct (JsMap.get sid (transports st)) as [t |] eqn:Eg; [| discriminate].
    intros [= <-]. right. eauto.
Qed.

(** The registry after the handler: unchanged, changed by the handshake
    completions of a new transport, or changed by the bookkeeping for a
    registered session. *)
Lemma fst_mcpHandler_cases h now res req st :
  fst (mcpHandler h now res req st) = st \/
  fst (mcpHandler h now res req st) = run_callbacks h NewTransport req st \/
  (fst (mcpHandler h now res req st) = track req res now st /\
   exists sid t, session_key (req_headers req !! "mcp-session-id") = Some sid /\
                 JsMap.get sid (transports st) = Some t).
Proof.
  destruct (route req st) as [[tr | r] | msg] eqn:Er.
  - rewrite (mcpHandler_routed h now res req st tr Er). cbn [fst].
    destruct (route_inl_inv req st tr Er) as [[-> Hf] | (sid & t & -> & Hk & Hg)].
    + right. left.
      now rewrite (track_without_session _ _ _ _ (header_falsy_session_key _ Hf)).
    + right. right. split; [apply run_callbacks_after_track | eauto].
  - left. now rewrite (proj1 (mcpHandler_rejected h now res req st r Er)).
  - left. unfold mcpHandler. now rewrite Er.
Qed.

Lemma fst_serve_cases h now res req st :
  fst (serve h now res req st) = st \/
  fst (serve h now res req st) = run_callbacks h NewTransport req st \/
  (fst (serve h now res req st) = track req res now st /\
   exists sid t, session_key (req_headers req !! "mcp-session-id") = Some sid /\
                 JsMap.get sid (transports st) = Some t).
Proof.
  unfold serve. destruct (salesforceOAuthMiddleware req); [| now left].
  apply fst_mcpHandler_cases.
Qed.

(** A property of the registry that every handshake completion preserves is
    preserved by the callbacks of a new transport. *)
Lemma run_callbacks_new_ind (P : ServerState -> Prop) h req st :
  (forall sid t srv now st0, P st0 -> P (onsessioninitialized sid t srv now st0)) ->
  P st -> P (run_callbacks h NewTransport req st).
Proof.
  intros Hinit. revert st.
  induction h as [| msg sent | cb rest IH]; intros st H; simpl; try exact H.
  destruct cb as [s t srv ts |]; simpl; apply IH; [now apply Hinit | exact H].
Qed.







(** ** Reachable states *)

Lemma wf_track req res now st : wf_state st -> wf_state (track req res now st).
Proof.
  intros (H1 & H2 & H3 & H4). unfold track, wf_state.
  destruct (String.eqb (req_method req) "POST" &&
            truthy (opt_chain (req_body req) "method")).
  { destruct (session_key _); simpl; auto using wf_set. }
  destruct (String.eqb (req_method req) "GET").
  { destruct (session_key _); simpl; auto using wf_set. }
  destruct (String.eqb (req_method req) "DELETE"); [| auto].
  destruct (session_key _); simpl; auto using wf_delete.
Qed.

Lemma wf_destroy_all ks st : wf_state st -> wf_state (destroy_all ks st).
Proof.
  intros (H1 & H2 & H3 & H4). rewrite destroy_all_maps. unfold wf_state. simpl.
  auto using wf_delete_all.
Qed.

Lemma wf_step st e : wf_state st -> wf_state (step st e).
Proof.
  intros Hwf. destruct e as [req res now h | s t srv now | s | s | write now]; simpl.
  - destruct (fst_serve_cases h now res req st) as [-> | [-> | [-> _]]];
      [exact Hwf | | now apply wf_track].
    apply run_callbacks_new_ind; [| exact Hwf].
    intros sid t srv now0 st0 (H1 & H2 & H3 & H4). unfold wf_state. simpl.
    auto using wf_set.
  - destruct Hwf as (H1 & H2 & H3 & H4). unfold wf_state. simpl. auto using wf_set.
  - now apply (wf_destroy_all [s]).
  - rewrite streamClosed_destroy. now apply (wf_destroy_all [s]).
  - unfold tick. rewrite prune_spec. simpl. apply wf_destroy_all.
    destruct Hwf as (H1 & H2 & H3 & H4). rewrite keepalive_spec.
    unfold wf_state. simpl. auto using wf_delete_all.
Qed.

(** In every state of the process the keys of each map are pairwise
    distinct. *)
Lemma reachable_wf st : reachable st -> wf_state st.
Proof.
  intros [events <-].
  assert (forall st0, wf_state st0 -> wf_state (run st0 events)) as Hrun.
  { induction events as [| e events IH]; intros st0 H0; simpl; [exact H0 |].
    apply IH. now apply wf_step. }
  apply Hrun. unfold wf_state, JsMap.wf. simpl. auto using List.NoDup_nil.
Qed.

(** ** Sessions without an activity record *)









(** ** Auth Context Resolver *)

Section ResolverFacts.

Variable network : list FetchCall -> FetchCall -> FetchOutcome.
Variable URL_new : Json -> Completion URL.

Lemma getAuthContext_no_token headers trace :
  bearer_token headers = None ->
  getAuthContext network URL_new (Some headers) trace = (None, trace).
Proof.
  unfold bearer_token, getAuthContext.
  destruct (getHeaderValue headers "authorization") as [a |]; [| reflexivity].
  destruct (String.eqb a "" || negb (startsWith a "Bearer ")); [reflexivity |].
  destruct (String.eqb (trim (substring_from 7 a)) ""); [reflexivity | discriminate].
Qed.

Lemma getAuthContext_token headers trace token :
  bearer_token headers = Some token ->
  getAuthContext network URL_new (Some headers) trace =
    let instance := getHeaderValue headers "x-salesforce-instance-url" in
    if str_falsy instance then
      let '(derived, trace1) := deriveInstanceUrlFromToken network URL_new token trace in
      if str_falsy derived then (None, trace1)
      else (Some {| accessToken := token; instanceUrl := derived; userId := None |}, trace1)
    else (Some {| accessToken := token; instanceUrl := instance; userId := None |}, trace).
Proof.
  unfold bearer_token, getAuthContext.
  destruct (getHeaderValue headers "authorization") as [a |]; [| discriminate].
  destruct (String.eqb a "" || negb (startsWith a "Bearer ")); [discriminate |].
  destruct (String.eqb (trim (substring_from 7 a)) ""); [discriminate |].
  intros H. injection H as <-. reflexivity.
Qed.

Lemma derive_calls_once token trace :
  snd (deriveInstanceUrlFromToken network URL_new token trace)
    = (trace ++ [userinfo_call token])%list.
Proof. reflexivity. Qed.

Lemma derive_result token trace :
  fst (deriveInstanceUrlFromToken network URL_new token trace) =
    match derive_try URL_new (network trace (userinfo_call token)) with
    | Normal r => r
    | Throw _ => None
    end.
Proof. reflexivity. Qed.

Lemma derive_try_ok st userInfo r u :
  response_ok st = true -> rest_field userInfo = Some r ->
  truthy (Some r) = true -> URL_new r = Normal u ->
  derive_try URL_new (FetchResponse st (Normal userInfo))
    = Normal (Some (protocol u ++ "//" ++ host u)).
Proof.
  intros Hok Hr Ht Hu. unfold derive_try. rewrite Hok.
  unfold rest_field in Hr.
  destruct userInfo; simpl in Hr; try discriminate.
  cbn [negb]. simpl. rewrite Hr, Ht. simpl. now rewrite Hu.
Qed.

Lemma derive_try_no_rest st userInfo :
  truthy (rest_field userInfo) = false ->
  match derive_try URL_new (FetchResponse st (Normal userInfo)) with
  | Normal r => r
  | Throw _ => None
  end = None.
Proof.
  intros Ht. unfold derive_try. destruct (response_ok st); [| reflexivity]. simpl.
  destruct userInfo; try reflexivity; simpl;
    unfold rest_field in Ht; simpl in Ht;
    match goal with
    | |- context [opt_chain ?o "rest"] =>
        destruct (opt_chain o "rest") as [r |] eqn:E; [| reflexivity];
        rewrite Ht; reflexivity
    end.
Qed.

Lemma derive_try_bad_url st userInfo r msg :
  rest_field userInfo = Some r -> URL_new r = Throw msg ->
  match derive_try URL_new (FetchResponse st (Normal userInfo)) with
  | Normal r => r
  | Throw _ => None
  end = None.
Proof.
  intros Hr Hu. unfold derive_try. destruct (response_ok st); [| reflexivity].
  unfold rest_field in Hr.
  destruct userInfo; simpl in Hr; try discriminate.
  cbn [negb]. simpl. rewrite Hr.
  destruct (truthy (Some r)); simpl; [now rewrite Hu | reflexivity].
Qed.

Lemma origin_nonempty (u : URL) : str_falsy (Some (protocol u ++ "//" ++ host u)) = false.
Proof. simpl. now destruct (protocol u). Qed.

(** The slow path of [getAuthContext], in terms of the outcome of its one
    call. *)
Lemma getAuthContext_slow headers trace token :
  bearer_token headers = Some token ->
  str_falsy (getHeaderValue headers "x-salesforce-instance-url") = true ->
  getAuthContext network URL_new (Some headers) trace =
    (match derive_try URL_new (network trace (userinfo_call token)) with
     | Normal (Some derived) =>
         if String.eqb derived "" then None
         else Some {| accessToken := token; instanceUrl := Some derived; userId := None |}
     | _ => None
     end, (trace ++ [userinfo_call token])%list).
Proof.
  intros Htok Hinst. rewrite (getAuthContext_token _ _ _ Htok). cbv zeta.
  rewrite Hinst. unfold deriveInstanceUrlFromToken. fold (userinfo_call token).
  destruct (derive_try URL_new (network trace (userinfo_call token))) as [[d |] | msg];
    simpl; try reflexivity.
  now destruct (String.eqb d "").
Qed.

End ResolverFacts.

Lemma absent_header_falsy (headers : Headers) (name : string) :
  headers !! name = None -> str_falsy (getHeaderValue headers name) = true.
Proof. intros H. now rewrite (getHeaderValue_absent _ _ H). Qed.

(** C5: when the credential is valid and the resource-endpoint header is
    absent, resolution makes exactly one introspection call (a [GET] of the
    userinfo endpoint with the bearer token); if that call returns 2xx with a
    JSON body whose nested rest-URL field is
    [https://foo.example.com/services/data/v60.0/], resolution yields the
    resourceEndpoint [https://foo.example.com], and in general the scheme and
    host of the rest URL with path and query discarded; a network failure, a
    non-2xx status, a body that is not JSON, a missing field or an unparsable
    rest URL yields no auth context. *)
Theorem slow_path_resolution
    (network : list FetchCall -> FetchCall -> FetchOutcome)
    (URL_new : Json -> Completion URL)
    (headers : Headers) (trace : list FetchCall) (token : string) :
  bearer_token headers = Some token ->
  headers !! "x-salesforce-instance-url" = None ->
  let call := userinfo_call token in
  let result := getAuthContext network URL_new (Some headers) trace in
  snd result = (trace ++ [call])%list /\
  (forall st userInfo,
     network trace call = FetchResponse st (Normal userInfo) ->
     response_ok st = true ->
     rest_field userInfo = Some (JStr "https://foo.example.com/services/data/v60.0/") ->
     URL_new (JStr "https://foo.example.com/services/data/v60.0/")
       = Normal {| protocol := "https:"; host := "foo.example.com" |} ->
     fst result = Some {| accessToken := token;
                          instanceUrl := Some "https://foo.example.com";
                          userId := None |}) /\
  (forall st userInfo r u,
     network trace call = FetchResponse st (Normal userInfo) ->
     response_ok st = true ->
     rest_field userInfo = Some r -> truthy (Some r) = true ->
     URL_new r = Normal u ->
     fst result = Some {| accessToken := token;
                          instanceUrl := Some (protocol u ++ "//" ++ host u);
                          userId := None |}) /\
  (forall msg, network trace call = FetchRejects msg -> fst result = None) /\
  (forall st body,
     network trace call = FetchResponse st body -> response_ok st = false ->
     fst result = None) /\
  (forall st msg,
     network trace call = FetchResponse st (Throw msg) -> fst result = None) /\
  (forall st userInfo,
     network trace call = FetchResponse st (Normal userInfo) ->
     truthy (rest_field userInfo) = false -> fst result = None) /\
  (forall st userInfo r msg,
     network trace call = FetchResponse st (Normal userInfo) ->
     rest_field userInfo = Some r -> URL_new r = Throw msg -> fst result = None).
Proof.
  intros Htok Habs call result.
  assert (Hres : result =
    (match derive_try URL_new (network trace call) with
     | Normal (Some derived) =>
         if String.eqb derived "" then None
         else Some {| accessToken := token; instanceUrl := Some derived; userId := None |}
     | _ => None
     end, (trace ++ [call])%list)).
  { unfold result, call. apply getAuthContext_slow; [exact Htok |].
    now apply absent_header_falsy. }
  assert (Hgen : forall st userInfo r u,
     network trace call = FetchResponse st (Normal userInfo) ->
     response_ok st = true ->
     rest_field userInfo = Some r -> truthy (Some r) = true ->
     URL_new r = Normal u ->
     fst result = Some {| accessToken := token;
                          instanceUrl := Some (protocol u ++ "//" ++ host u);
                          userId := None |}).
  { intros st userInfo r u Hn Hok Hr Ht Hu. rewrite Hres, Hn.
    rewrite (derive_try_ok URL_new st userInfo r u Hok Hr Ht Hu). simpl.
    pose proof (origin_nonempty u) as Hne. simpl in Hne. now rewrite Hne. }
  rewrite Hres. split; [reflexivity |]. rewrite <- Hres.
  split; [| split; [exact Hgen |]].
  { intros st userInfo Hn Hok Hr Hu.
    exact (Hgen st userInfo _ _ Hn Hok Hr eq_refl Hu). }
  rewrite Hres. simpl. split; [| split; [| split; [| split]]].
  - intros msg Hn. now rewrite Hn.
  - intros st body Hn Hok. rewrite Hn. simpl. now rewrite Hok.
  - intros st msg Hn. rewrite Hn. simpl. now destruct (response_ok st).
  - intros st userInfo Hn Ht. rewrite Hn.
    pose proof (derive_try_no_rest URL_new st userInfo Ht) as Hd.
    destruct (derive_try URL_new (FetchResponse st (Normal userInfo))) as [[d |] | m];
      [discriminate | reflexivity | reflexivity].
  - intros st userInfo r msg Hn Hr Hu. rewrite Hn.
    pose proof (derive_try_bad_url URL_new st userInfo r msg Hr Hu) as Hd.
    destruct (derive_try URL_new (FetchResponse st (Normal userInfo))) as [[d |] | m];
      [discriminate | reflexivity | reflexivity].
Qed.

Lemma slow_path_resolution_witness :
  getAuthContext stub_userinfo url_new_ref
    (Some {[ "authorization" := HSingle "Bearer abc" ]}) []
  = (Some {| accessToken := "abc"; instanceUrl := Some "https://foo.example.com";
             userId := None |},
     [userinfo_call "abc"]).
Proof.
  pose proof (slow_path_resolution stub_userinfo url_new_ref
                {[ "authorization" := HSingle "Bearer abc" ]} [] "abc" eq_refl eq_refl)
    as (Hcalls & Hex & _).
  specialize (Hex 200 _ eq_refl eq_refl eq_refl eq_refl).
  destruct (getAuthContext stub_userinfo url_new_ref
              (Some {[ "authorization" := HSingle "Bearer abc" ]}) []) as [ctx calls].
  simpl in Hcalls, Hex. now subst.
Defined.

(** C6, as stated, fails: with the resource-endpoint header present but empty
    the resolver does not use the header's value; it calls the introspection
    endpoint. *)
Lemma empty_instance_header_counterexample :
  let headers : Headers :=
    {[ "authorization" := HSingle "Bearer abc";
       "x-salesforce-instance-url" := HSingle "" ]} in
  headers !! "x-salesforce-instance-url" = Some (HSingle "") /\
  getAuthContext (fun _ _ => FetchRejects "offline") url_new_ref (Some headers) []
    = (None, [userinfo_call "abc"]) /\
  getAuthContext stub_userinfo url_new_ref (Some headers) []
    = (Some {| accessToken := "abc"; instanceUrl := Some "https://foo.example.com";
               userId := None |},
       [userinfo_call "abc"]).
Proof. vm_compute. repeat split. Qed.

(** C6 (amended): for every request in which the resource-endpoint header is
    present with a non-empty value, resolution performs no network call to the
    introspection endpoint; with a valid credential it uses the header's value
    verbatim as the resourceEndpoint, without one it yields no auth context;
    the gate attaches the same value to the request. *)
Theorem fast_path_resolution
    (network : list FetchCall -> FetchCall -> FetchOutcome)
    (URL_new : Json -> Completion URL)
    (headers : Headers) (trace : list FetchCall) (instance : string) :
  getHeaderValue headers "x-salesforce-instance-url" = Some instance ->
  instance <> "" ->
  let result := getAuthContext network URL_new (Some headers) trace in
  snd result = trace /\
  (forall token, bearer_token headers = Some token ->
     fst result = Some {| accessToken := token; instanceUrl := Some instance;
                          userId := None |}) /\
  (bearer_token headers = None -> fst result = None) /\
  (forall req ctx,
     req_headers req = headers ->
     salesforceOAuthMiddleware req = Next (Some ctx) ->
     instanceUrl ctx = Some instance).
Proof.
  intros Hinst Hne result.
  assert (Hf : str_falsy (Some instance) = false).
  { simpl. now destruct (String.eqb_spec instance ""). }
  assert (Htok : forall token, bearer_token headers = Some token ->
            result = (Some {| accessToken := token; instanceUrl := Some instance;
                              userId := None |}, trace)).
  { intros token Ht. unfold result. rewrite (getAuthContext_token _ _ _ _ _ Ht).
    cbv zeta. now rewrite Hinst, Hf. }
  split; [| split; [| split]].
  - destruct (bearer_token headers) as [token |] eqn:Et.
    + now rewrite (Htok token eq_refl).
    + unfold result. now rewrite (getAuthContext_no_token _ _ _ _ Et).
  - intros token Ht. now rewrite (Htok token Ht).
  - intros Ht. unfold result. now rewrite (getAuthContext_no_token _ _ _ _ Ht).
  - intros req ctx Hh. unfold salesforceOAuthMiddleware. rewrite Hh.
    destruct (String.eqb (req_method req) "GET"); [discriminate |].
    destruct (includes skipAuthMethods (opt_chain (req_body req) "method"));
      [discriminate |].
    destruct (getHeaderValue headers "authorization") as [a |]; [| discriminate].
    destruct (String.eqb a ""); [discriminate |].
    destruct (negb (startsWith a "Bearer ")); [discriminate |].
    destruct (String.eqb (trim (substring_from 7 a)) ""); [discriminate |].
    rewrite Hinst, Hf. now intros [= <-].
Qed.

Lemma fast_path_resolution_witness :
  getAuthContext (fun _ _ => FetchRejects "offline") url_new_ref
    (Some {[ "authorization" := HSingle "Bearer abc";
             "x-salesforce-instance-url" := HSingle "https://na1.salesforce.com" ]}) []
  = (Some {| accessToken := "abc"; instanceUrl := Some "https://na1.salesforce.com";
             userId := None |}, []).
Proof.
  pose proof (fast_path_resolution (fun _ _ => FetchRejects "offline") url_new_ref
                {[ "authorization" := HSingle "Bearer abc";
                   "x-salesforce-instance-url" := HSingle "https://na1.salesforce.com" ]}
                [] "https://na1.salesforce.com" eq_refl) as H.
  assert ("https://na1.salesforce.com" <> "") as Hne by discriminate.
  destruct (H Hne) as (Hcalls & Hctx & _).
  specialize (Hctx "abc" eq_refl).
  destruct (getAuthContext _ _ _ _) as [ctx calls].
  simpl in Hcalls, Hctx. now subst.
Defined.

(** * Further properties *)

(** ** [trim] *)

Lemma append_nil (b : string) : "" ++ b = b.
Proof. reflexivity. Qed.

Lemma append_cons (x : ascii) (a b : string) : String x a ++ b = String x (a ++ b).
Proof. reflexivity. Qed.

Lemma append_assoc (a b c : string) : (a ++ b) ++ c = a ++ (b ++ c).
Proof.
  induction a as [| x a IH]; [reflexivity |].
  now rewrite !append_cons, IH.
Qed.


Lemma append_empty_r (s : string) : s ++ "" = s.
Proof.
  induction s as [| c s IH]; [reflexivity |].
  now rewrite append_cons, IH.
Qed.

Lemma str_rev_app_append s acc : str_rev_app s acc = str_rev s ++ acc.
Proof.
  unfold str_rev. revert acc.
  induction s as [| c s IH]; intros acc; simpl; [reflexivity |].
  rewrite IH, (IH (String c EmptyString)).
  now rewrite append_assoc.
Qed.

Lemma str_rev_cons c s : str_rev (String c s) = str_rev s ++ String c EmptyString.
Proof. unfold str_rev at 1. simpl. apply str_rev_app_append. Qed.

Lemma str_rev_append a b : str_rev (a ++ b) = str_rev b ++ str_rev a.
Proof.
  induction a as [| c a IH].
  - rewrite append_nil. change (str_rev "") with "". now rewrite append_empty_r.
  - now rewrite append_cons, !str_rev_cons, IH, append_assoc.
Qed.

Lemma str_rev_involutive s : str_rev (str_rev s) = s.
Proof.
  induction s as [| c s IH]; [reflexivity |].
  now rewrite str_rev_cons, str_rev_append, IH.
Qed.


(** [trim_start] removes a prefix of white space and nothing else. *)
Lemma trim_start_split s :
  exists w, s = w ++ trim_start s /\ all_ws w /\ head_kept (trim_start s).
Proof.
  induction s as [| c s (w & Hs & Hw & Hk)]; simpl.
  - exists "". repeat split.
  - destruct (is_ws c) eqn:E.
    + exists (String c w). rewrite append_cons, <- Hs. repeat split; assumption.
    + exists "". repeat split. exact E.
Qed.

Lemma trim_start_kept s : head_kept s -> trim_start s = s.
Proof. destruct s as [| c s]; simpl; [reflexivity |]. now intros ->. Qed.

Lemma head_kept_append a b : a <> "" -> head_kept (a ++ b) -> head_kept a.
Proof. destruct a; [contradiction | now rewrite append_cons]. Qed.

Lemma trim_trimmed s : trimmed (trim s).
Proof.
  unfold trimmed, trim. rewrite str_rev_involutive.
  destruct (trim_start_split s) as (w1 & _ & _ & Hk1).
  destruct (trim_start_split (str_rev (trim_start s))) as (w2 & Hs2 & _ & Hk2).
  split; [| exact Hk2].
  set (u := trim_start s) in *. set (v := trim_start (str_rev u)) in *.
  destruct v as [| c v'] eqn:Ev; [exact I |].
  assert (Hu : u = str_rev (String c v') ++ str_rev w2).
  { rewrite <- str_rev_append, <- Hs2. now rewrite str_rev_involutive. }
  apply (head_kept_append _ (str_rev w2)).
  - rewrite str_rev_cons. destruct (str_rev v'); discriminate.
  - now rewrite <- Hu.
Qed.

Lemma trim_of_trimmed s : trimmed s -> trim s = s.
Proof.
  intros [H1 H2]. unfold trim.
  rewrite (trim_start_kept s H1), (trim_start_kept _ H2).
  apply str_rev_involutive.
Qed.

Lemma trim_idempotent s : trim (trim s) = trim s.
Proof. apply trim_of_trimmed, trim_trimmed. Qed.



(** ** The gate and the resolver on the same headers *)

Lemma bearer_token_trimmed headers token :
  bearer_token headers = Some token -> token <> "" /\ trimmed token.
Proof.
  unfold bearer_token.
  destruct (getHeaderValue headers "authorization") as [a |]; [| discriminate].
  destruct (String.eqb a "" || negb (startsWith a "Bearer ")); [discriminate |].
  destruct (String.eqb_spec (trim (substring_from 7 a)) "") as [| Hne]; [discriminate |].
  intros H. injection H as <-. split; [exact Hne | apply trim_trimmed].
Qed.

Lemma gate_context_inv req ctx :
  salesforceOAuthMiddleware req = Next (Some ctx) ->
  subject_to_auth req = true /\
  bearer_token (req_headers req) = Some (accessToken ctx) /\
  instanceUrl ctx =
    (let i := getHeaderValue (req_headers req) "x-salesforce-instance-url" in
     if str_falsy i then None else i) /\
  userId ctx = None.
Proof.
  intros Hg. destruct (subject_to_auth req) eqn:Hs.
  - pose proof (gate_by_bearer_token req Hs) as H.
    destruct (bearer_token (req_headers req)) as [token |].
    + rewrite Hg in H. injection H as ->. simpl. auto.
    + destruct H as [resp H]. congruence.
  - rewrite (gate_bypass req Hs) in Hg. discriminate.
Qed.



(** X2: the context the gate attaches has a non-empty access token without
    white space at either end, an instance URL that is either absent or
    non-empty, and no user id. *)
Theorem gate_context_well_formed (req : Request) (ctx : SalesforceAuthContext) :
  salesforceOAuthMiddleware req = Next (Some ctx) ->
  accessToken ctx <> "" /\ trimmed (accessToken ctx) /\
  trim (accessToken ctx) = accessToken ctx /\
  instanceUrl ctx <> Some "" /\ userId ctx = None.
Proof.
  intros Hg. apply gate_context_inv in Hg as (_ & Ht & Hi & Hu).
  apply bearer_token_trimmed in Ht as [Hne Htr].
  split; [exact Hne |]. split; [exact Htr |].
  split; [now apply trim_of_trimmed |]. split; [| exact Hu].
  rewrite Hi. cbv zeta.
  destruct (getHeaderValue (req_headers req) "x-salesforce-instance-url") as [i |];
    simpl; [| discriminate].
  destruct (String.eqb_spec i ""); [discriminate | congruence].
Qed.

Lemma gate_context_well_formed_witness :
  "abc" <> "" /\ trimmed "abc" /\ trim "abc" = "abc" /\
  (None : option string) <> Some "" /\ (None : option string) = None.
Proof.
  exact (gate_context_well_formed
           (mkRequest "POST" {[ "authorization" := HSingle "Bearer  abc " ]}
              (Some (JObj [("method", JStr "tools/call")])))
           {| accessToken := "abc"; instanceUrl := None; userId := None |}
           eq_refl).
Defined.

(** X3: a context returned by the resolver is complete: the access token is
    non-empty and trimmed, the instance URL is defined and non-empty, and the
    user id is unset. *)
Theorem resolved_context_complete
    (network : list FetchCall -> FetchCall -> FetchOutcome)
    (URL_new : Json -> Completion URL)
    (headers : option Headers) (trace : list FetchCall) (ctx : SalesforceAuthContext) :
  fst (getAuthContext network URL_new headers trace) = Some ctx ->
  accessToken ctx <> "" /\ trimmed (accessToken ctx) /\
  (exists headers', headers = Some headers' /\
                    bearer_token headers' = Some (accessToken ctx)) /\
  (exists url, instanceUrl ctx = Some url /\ url <> "") /\
  userId ctx = None.
Proof.
  destruct headers as [headers |]; [| discriminate].
  destruct (bearer_token headers) as [token |] eqn:Et.
  - pose proof (bearer_token_trimmed _ _ Et) as [Hne Htr].
    destruct (str_falsy (getHeaderValue headers "x-salesforce-instance-url")) eqn:Ef.
    + rewrite (getAuthContext_slow _ _ _ _ _ Et Ef). cbn [fst].
      destruct (derive_try URL_new (network trace (userinfo_call token)))
        as [[d |] | m]; try discriminate.
      destruct (String.eqb_spec d ""); [discriminate |].
      intros [= <-]. simpl. eauto 10.
    + rewrite (getAuthContext_token _ _ _ _ _ Et). cbv zeta. rewrite Ef. cbn [fst].
      intros [= <-]. simpl.
      destruct (getHeaderValue headers "x-salesforce-instance-url") as [i |];
        simpl in Ef; [| discriminate].
      destruct (String.eqb_spec i ""); [discriminate |]. eauto 10.
  - now rewrite (getAuthContext_no_token _ _ _ _ Et).
Qed.

Lemma resolved_context_complete_witness :
  exists url, Some "https://foo.example.com" = Some url /\ url <> "".
Proof.
  exact (proj1 (proj2 (proj2 (proj2 (resolved_context_complete stub_userinfo url_new_ref
           (Some {[ "authorization" := HSingle "Bearer abc" ]}) []
           {| accessToken := "abc"; instanceUrl := Some "https://foo.example.com";
              userId := None |} eq_refl))))).
Defined.

(** X4: the gate's context and the resolver agree.  When the gate attached an
    instance URL, the resolver returns exactly the gate's context and makes
    no call; when it attached none, the resolver makes exactly one
    introspection call with the gate's token, and any context it returns
    carries that token. *)
Theorem resolver_reproduces_gate_context
    (network : list FetchCall -> FetchCall -> FetchOutcome)
    (URL_new : Json -> Completion URL)
    (req : Request) (ctx : SalesforceAuthContext) (trace : list FetchCall) :
  salesforceOAuthMiddleware req = Next (Some ctx) ->
  let result := getAuthContext network URL_new (Some (req_headers req)) trace in
  (forall url, instanceUrl ctx = Some url -> result = (Some ctx, trace)) /\
  (instanceUrl ctx = None ->
     snd result = (trace ++ [userinfo_call (accessToken ctx)])%list /\
     forall ctx', fst result = Some ctx' -> accessToken ctx' = accessToken ctx).
Proof.
  intros Hg result. apply gate_context_inv in Hg as (_ & Ht & Hi & Hu).
  cbv zeta in Hi. unfold result. split.
  - intros url Hurl. rewrite (getAuthContext_token _ _ _ _ _ Ht). cbv zeta.
    rewrite Hurl in Hi.
    destruct (str_falsy (getHeaderValue (req_headers req) "x-salesforce-instance-url"));
      [discriminate |].
    rewrite <- Hi. destruct ctx; simpl in *. now subst.
  - intros Hnone. rewrite Hnone in Hi.
    assert (Hf : str_falsy (getHeaderValue (req_headers req) "x-salesforce-instance-url")
                 = true).
    { destruct (str_falsy (getHeaderValue (req_headers req) "x-salesforce-instance-url"))
        eqn:E; [reflexivity |].
      destruct (getHeaderValue (req_headers req) "x-salesforce-instance-url");
        discriminate. }
    rewrite (getAuthContext_slow _ _ _ _ _ Ht Hf). simpl. split; [reflexivity |].
    intros ctx'.
    destruct (derive_try URL_new (network trace (userinfo_call (accessToken ctx))))
      as [[d |] | m]; try discriminate.
    destruct (String.eqb d ""); [discriminate |]. now intros [= <-].
Qed.

Lemma resolver_reproduces_gate_context_witness :
  getAuthContext (fun _ _ => FetchRejects "offline") url_new_ref
    (Some {[ "authorization" := HSingle "Bearer abc";
             "x-salesforce-instance-url" := HSingle "https://na1.salesforce.com" ]}) []
  = (Some {| accessToken := "abc"; instanceUrl := Some "https://na1.salesforce.com";
             userId := None |}, []).
Proof.
  exact (proj1 (resolver_reproduces_gate_context (fun _ _ => FetchRejects "offline")
           url_new_ref
           (mkRequest "POST"
              {[ "authorization" := HSingle "Bearer abc";
                 "x-salesforce-instance-url" := HSingle "https://na1.salesforce.com" ]}
              (Some (JObj [("method", JStr "tools/call")])))
           {| accessToken := "abc"; instanceUrl := Some "https://na1.salesforce.com";
              userId := None |} [] eq_refl) "https://na1.salesforce.com" eq_refl).
Defined.

(** ** The outgoing introspection call *)

Lemma getHeaderValue_singleton (name v : string) :
  getHeaderValue ({[ name := HSingle v ]} : Headers) name
    = if String.eqb v "" then None else Some v.
Proof. apply getHeaderValue_single. apply lookup_singleton_eq. Qed.

Lemma bearer_prefix (token : string) :
  startsWith ("Bearer " ++ token) "Bearer " = true /\
  substring_from 7 ("Bearer " ++ token) = token /\
  String.eqb ("Bearer " ++ token) "" = false.
Proof.
  split; [| split; reflexivity].
  unfold startsWith. destruct token; reflexivity.
Qed.

(** X5: the [Authorization] header of the introspection call round-trips: read
    back by the server's own credential parsing it yields the token the call
    was made for. *)
Theorem userinfo_call_round_trip (headers : Headers) (token : string) :
  bearer_token headers = Some token ->
  exists v, assoc "Authorization" (fetch_headers (userinfo_call token)) = Some v /\
            bearer_token ({[ "authorization" := HSingle v ]} : Headers) = Some token.
Proof.
  intros Ht. apply bearer_token_trimmed in Ht as [Hne Htr].
  exists ("Bearer " ++ token). split; [reflexivity |].
  destruct (bearer_prefix token) as (Hp & Hs & He).
  unfold bearer_token. rewrite getHeaderValue_singleton, He, Hp, Hs.
  cbn [orb negb]. rewrite (trim_of_trimmed _ Htr).
  destruct (String.eqb_spec token ""); [contradiction | reflexivity].
Qed.

Lemma userinfo_call_round_trip_witness :
  exists v, assoc "Authorization" (fetch_headers (userinfo_call "abc")) = Some v /\
            bearer_token ({[ "authorization" := HSingle v ]} : Headers) = Some "abc".
Proof.
  exact (userinfo_call_round_trip {[ "authorization" := HSingle "Bearer  abc " ]} "abc"
           eq_refl).
Defined.

(** ** [hasOAuthContext] and [createOAuthConnection] *)

Section ConnectionFacts.

Variable network : list FetchCall -> FetchCall -> FetchOutcome.
Variable URL_new : Json -> Completion URL.
Variables AuthInfo Connection : Type.
Variable AuthInfo_create : string -> string -> option string -> Completion AuthInfo.
Variable Connection_create : AuthInfo -> Completion Connection.

Local Abbreviation connect :=
  (createOAuthConnection network URL_new AuthInfo Connection
     AuthInfo_create Connection_create).
Local Abbreviation probe := (hasOAuthContext network URL_new).

Lemma probe_spec headers trace :
  probe headers trace =
    (match fst (getAuthContext network URL_new headers trace) with
     | Some _ => true
     | None => false
     end, snd (getAuthContext network URL_new headers trace)).
Proof.
  unfold hasOAuthContext.
  now destruct (getAuthContext network URL_new headers trace).
Qed.

Lemma connect_spec headers trace :
  connect headers trace =
    (match fst (getAuthContext network URL_new headers trace) with
     | None => Normal None
     | Some ctx =>
         authInfo ← AuthInfo_create "oauth-user" (accessToken ctx) (instanceUrl ctx);
         connection ← Connection_create authInfo;
         Normal (Some connection)
     end, snd (getAuthContext network URL_new headers trace)).
Proof.
  unfold createOAuthConnection.
  now destruct (getAuthContext network URL_new headers trace) as [[ctx |] t].
Qed.

(** X6: nothing is cached between invocations.  On the slow path a probe with
    [hasOAuthContext] followed by [createOAuthConnection] on the same headers
    issues the introspection call twice. *)
Theorem no_caching_between_invocations
    (headers : Headers) (token : string) (trace : list FetchCall) :
  bearer_token headers = Some token ->
  str_falsy (getHeaderValue headers "x-salesforce-instance-url") = true ->
  snd (connect (Some headers) (snd (probe (Some headers) trace)))
    = (trace ++ [userinfo_call token; userinfo_call token])%list.
Proof.
  intros Ht Hf. rewrite connect_spec, probe_spec. cbn [snd].
  rewrite !(getAuthContext_slow _ _ _ _ _ Ht Hf). cbn [snd].
  now rewrite <- app_assoc.
Qed.

(** X7: [createOAuthConnection] yields a connection only from a non-empty
    bearer token and a non-empty instance URL, under the placeholder user name;
    it yields [undefined] exactly when [hasOAuthContext] on the same headers
    and network answers false, and then neither factory result is used; it
    makes the same calls as the resolver. *)
Theorem connection_needs_complete_context
    (headers : option Headers) (trace : list FetchCall) :
  (forall c, fst (connect headers trace) = Normal (Some c) ->
     exists headers' token url authInfo,
       headers = Some headers' /\ bearer_token headers' = Some token /\
       token <> "" /\ url <> "" /\
       AuthInfo_create "oauth-user" token (Some url) = Normal authInfo /\
       Connection_create authInfo = Normal c) /\
  (fst (connect headers trace) = Normal None <-> fst (probe headers trace) = false) /\
  snd (connect headers trace) = snd (getAuthContext network URL_new headers trace) /\
  snd (probe headers trace) = snd (getAuthContext network URL_new headers trace).
Proof.
  rewrite connect_spec, probe_spec. cbn [fst snd].
  destruct (fst (getAuthContext network URL_new headers trace)) as [ctx |] eqn:Ec.
  - pose proof (resolved_context_complete _ _ _ _ _ Ec)
      as (Hne & _ & (h' & -> & Ht) & (url & Hu & Hun) & _).
    split; [| split; [| split; reflexivity]].
    + intros c. rewrite Hu.
      destruct (AuthInfo_create "oauth-user" (accessToken ctx) (Some url))
        as [ai |] eqn:Ea; simpl; [| discriminate].
      destruct (Connection_create ai) as [c' |] eqn:Ecc; simpl; [| discriminate].
      intros [= <-]. exists h', (accessToken ctx), url, ai. auto 10.
    + split; [| discriminate].
      destruct (AuthInfo_create "oauth-user" (accessToken ctx) (instanceUrl ctx))
        as [ai |]; simpl; [| discriminate].
      destruct (Connection_create ai); simpl; discriminate.
  - split; [discriminate |]. split; [tauto |]. split; reflexivity.
Qed.

End ConnectionFacts.

Lemma no_caching_between_invocations_witness :
  snd (createOAuthConnection stub_userinfo url_new_ref nat nat
         (fun _ _ _ => Normal 0%nat) (fun _ => Normal 1%nat)
         (Some {[ "authorization" := HSingle "Bearer abc" ]})
         (snd (hasOAuthContext stub_userinfo url_new_ref
                 (Some {[ "authorization" := HSingle "Bearer abc" ]}) [])))
    = [userinfo_call "abc"; userinfo_call "abc"].
Proof.
  exact (no_caching_between_invocations stub_userinfo url_new_ref nat nat
           (fun _ _ _ => Normal 0%nat) (fun _ => Normal 1%nat)
           {[ "authorization" := HSingle "Bearer abc" ]} "abc" [] eq_refl eq_refl).
Defined.

Lemma connection_needs_complete_context_witness :
  exists headers' token url authInfo,
    Some ({[ "authorization" := HSingle "Bearer abc" ]} : Headers) = Some headers' /\
    bearer_token headers' = Some token /\ token <> "" /\ url <> "" /\
    (fun (_ _ : string) (_ : option string) => Normal 0%nat) "oauth-user" token (Some url)
      = Normal authInfo /\
    (fun _ : nat => Normal 1%nat) authInfo = Normal 1%nat.
Proof.
  exact (proj1 (connection_needs_complete_context stub_userinfo url_new_ref nat nat
           (fun _ _ _ => Normal 0%nat) (fun _ => Normal 1%nat)
           (Some {[ "authorization" := HSingle "Bearer abc" ]}) []) 1%nat eq_refl).
Defined.

(** ** Request logging against the gate *)


Lemma toLowerCase_empty (a : string) : toLowerCase a = "" -> a = "".
Proof. now destruct a. Qed.




(** ** [hasSalesforceAuth] *)

(** X9: the type guard returns a falsy argument as it is (not a boolean);
    it throws a [TypeError] on an object whose [salesforceAuth] is [null];
    it answers [false] when [salesforceAuth] is missing or not an object, and
    otherwise answers whether [accessToken] is a string.  On a request
    carrying the context built by the gate it answers [true]. *)
Theorem hasSalesforceAuth_cases :
  (forall obj, truthy obj = false -> hasSalesforceAuth obj = Normal obj) /\
  (forall fields, assoc "salesforceAuth" fields = Some JNull ->
     hasSalesforceAuth (Some (JObj fields))
       = Throw "Cannot read properties of null (reading 'accessToken')") /\
  (forall fields auth,
     assoc "salesforceAuth" fields = auth -> typeof auth <> "object" ->
     hasSalesforceAuth (Some (JObj fields)) = Normal (Some (JBool false))) /\
  (forall fields auth,
     assoc "salesforceAuth" fields = Some auth -> typeof (Some auth) = "object" ->
     auth <> JNull ->
     hasSalesforceAuth (Some (JObj fields))
       = Normal (Some (JBool (String.eqb (typeof (get_prop auth "accessToken")) "string")))) /\
  (forall fields ctx,
     assoc "salesforceAuth" fields = Some (auth_object ctx) ->
     hasSalesforceAuth (Some (JObj fields)) = Normal (Some (JBool true))).
Proof.
  split; [| split; [| split; [| split]]].
  - intros obj H. unfold hasSalesforceAuth. now rewrite H.
  - intros fields H. unfold hasSalesforceAuth. simpl. now rewrite H.
  - intros fields auth H Ht. unfold hasSalesforceAuth. simpl. rewrite H.
    destruct (String.eqb_spec (typeof auth) "object"); [contradiction | reflexivity].
  - intros fields auth H Ht Hn. unfold hasSalesforceAuth. simpl. rewrite H, Ht. simpl.
    destruct auth; try contradiction; try discriminate; reflexivity.
  - intros fields ctx H. unfold hasSalesforceAuth. simpl. now rewrite H.
Qed.

Lemma hasSalesforceAuth_cases_witness :
  hasSalesforceAuth (Some (JNum 0)) = Normal (Some (JNum 0)) /\
  hasSalesforceAuth (Some (JObj [("salesforceAuth", JNull)]))
    = Throw "Cannot read properties of null (reading 'accessToken')" /\
  hasSalesforceAuth (Some (JObj [("salesforceAuth", JStr "x")]))
    = Normal (Some (JBool false)) /\
  hasSalesforceAuth
    (Some (JObj [("salesforceAuth",
                  auth_object {| accessToken := "abc"; instanceUrl := None;
                                 userId := None |})]))
    = Normal (Some (JBool true)).
Proof.
  split; [| split; [| split]].
  - exact (proj1 hasSalesforceAuth_cases (Some (JNum 0)) eq_refl).
  - exact (proj1 (proj2 hasSalesforceAuth_cases) [("salesforceAuth", JNull)] eq_refl).
  - refine (proj1 (proj2 (proj2 hasSalesforceAuth_cases))
              [("salesforceAuth", JStr "x")] (Some (JStr "x")) eq_refl _).
    discriminate.
  - exact (proj2 (proj2 (proj2 (proj2 hasSalesforceAuth_cases)))
             [("salesforceAuth",
               auth_object {| accessToken := "abc"; instanceUrl := None; userId := None |})]
             {| accessToken := "abc"; instanceUrl := None; userId := None |} eq_refl).
Defined.

(** ** Consistency of the four maps *)

Section JsMapMoreFacts.

Context {V : Type}.
Implicit Types (m : JsMap.t V) (k : string) (v : V).

Lemma has_keys m k : JsMap.has k m = true <-> In k (JsMap.keys m).
Proof.
  unfold JsMap.has. pose proof (get_None_keys m k) as H.
  destruct (JsMap.get k m); split; intros H'; try reflexivity; try discriminate.
  - destruct (in_dec String.string_dec k (JsMap.keys m)) as [Hin | Hnot]; [exact Hin |].
    apply H in Hnot. discriminate.
  - exfalso. now apply H.
Qed.

Lemma In_keys_set m k v k' :
  In k' (JsMap.keys (JsMap.set k v m)) <-> k' = k \/ In k' (JsMap.keys m).
Proof.
  rewrite keys_set. destruct (JsMap.has k m) eqn:E.
  - apply has_keys in E. split; [tauto |]. intros [-> | H]; assumption.
  - rewrite in_app_iff. simpl. intuition congruence.
Qed.

Lemma get_Some_keys m k v : JsMap.get k m = Some v -> In k (JsMap.keys m).
Proof.
  intros H. apply get_Some_In in H. change k with (fst (k, v)). now apply in_map.
Qed.

Lemma delete_set_absent m k v :
  ~ In k (JsMap.keys m) -> JsMap.delete k (JsMap.set k v m) = m.
Proof.
  induction m as [| [k' v'] m IH]; simpl; intros H.
  - now rewrite String.eqb_refl.
  - destruct (String.eqb_spec k' k) as [-> | Hne]; [tauto |]. simpl.
    destruct (String.eqb_spec k' k); [contradiction |]. simpl. f_equal. apply IH. tauto.
Qed.

Lemma get_delete_all_Some ks m k v :
  JsMap.get k (delete_all ks m) = Some v -> JsMap.get k m = Some v.
Proof.
  intros H. destruct (in_dec String.string_dec k ks) as [Hin | Hnot].
  - rewrite (get_delete_all_in ks m k Hin) in H. discriminate.
  - now rewrite (get_delete_all_notin ks m k Hnot) in H.
Qed.

Lemma size_set m k v :
  JsMap.size (JsMap.set k v m) =
  if JsMap.has k m then JsMap.size m else S (JsMap.size m).
Proof.
  unfold JsMap.size. rewrite <- !(length_map fst). fold (JsMap.keys (JsMap.set k v m)).
  fold (JsMap.keys m). rewrite keys_set.
  destruct (JsMap.has k m); [reflexivity |]. rewrite length_app. simpl. lia.
Qed.

Lemma size_delete_present m k v :
  JsMap.wf m -> JsMap.get k m = Some v ->
  S (JsMap.size (JsMap.delete k m)) = JsMap.size m.
Proof.
  unfold JsMap.wf, JsMap.size. induction m as [| [k' v'] m IH]; simpl; [discriminate |].
  intros Hnd Hg. inversion Hnd as [| ? ? Hnotin Hnd']; subst.
  destruct (String.eqb_spec k' k) as [-> | Hne]; simpl.
  - f_equal. fold (JsMap.delete k m). now rewrite delete_absent.
  - f_equal. now apply IH.
Qed.

End JsMapMoreFacts.

Lemma keys_delete_all_ext {A B} (ks : list string) (m1 : JsMap.t A) (m2 : JsMap.t B) :
  JsMap.keys m1 = JsMap.keys m2 ->
  JsMap.keys (delete_all ks m1) = JsMap.keys (delete_all ks m2).
Proof.
  revert m1 m2. induction ks as [| k ks IH]; intros m1 m2 H; simpl; [exact H |].
  apply IH. now rewrite !keys_delete, H.
Qed.

Lemma consistent_destroy_all ks st :
  registry_consistent st -> registry_consistent (destroy_all ks st).
Proof.
  intros (H1 & H2 & H3). rewrite destroy_all_maps. unfold registry_consistent. simpl.
  split; [now apply keys_delete_all_ext |].
  split; intros sid; rewrite !In_keys_delete_all; intros [Hn Hin]; auto.
Qed.

Lemma consistent_keepalive write st :
  registry_consistent st -> registry_consistent (keepalive write st).
Proof.
  intros (H1 & H2 & H3). rewrite keepalive_spec. unfold registry_consistent. simpl.
  split; [exact H1 |].
  split; intros sid; rewrite In_keys_delete_all; intros [Hn Hin]; auto.
Qed.

Lemma consistent_init sid t srv now st :
  registry_consistent st -> registry_consistent (onsessioninitialized sid t srv now st).
Proof.
  intros (H1 & H2 & H3). unfold registry_consistent. simpl. split; [| split].
  - rewrite !keys_set, H1.
    assert (JsMap.has sid (mcpServers st) = JsMap.has sid (transports st)) as ->; [| reflexivity].
    pose proof (has_keys (mcpServers st) sid) as Ha.
    pose proof (has_keys (transports st) sid) as Hb. rewrite H1 in Ha.
    destruct (JsMap.has sid (mcpServers st)), (JsMap.has sid (transports st));
      try reflexivity; intuition congruence.
  - intros k Hk. apply In_keys_set. right. auto.
  - intros k Hk. apply In_keys_set. apply In_keys_set in Hk as [-> | Hk]; auto.
Qed.

Lemma consistent_track req res now st sid t :
  session_key (req_headers req !! "mcp-session-id") = Some sid ->
  JsMap.get sid (transports st) = Some t ->
  registry_consistent st -> registry_consistent (track req res now st).
Proof.
  intros Hk Hg (H1 & H2 & H3). pose proof (get_Some_keys _ _ _ Hg) as Hin.
  unfold track. rewrite Hk.
  destruct (String.eqb (req_method req) "POST" &&
            truthy (opt_chain (req_body req) "method")).
  { unfold registry_consistent. simpl. split; [exact H1 |]. split; [exact H2 |].
    intros k Hkin. apply In_keys_set in Hkin as [-> | Hkin]; auto. }
  destruct (String.eqb (req_method req) "GET").
  { unfold registry_consistent. simpl. split; [exact H1 |].
    split; intros k Hkin; apply In_keys_set in Hkin as [-> | Hkin]; auto. }
  destruct (String.eqb (req_method req) "DELETE"); [| now repeat split].
  now apply (consistent_destroy_all [sid]).
Qed.

Lemma consistent_step st e : registry_consistent st -> registry_consistent (step st e).
Proof.
  intros Hc. destruct e as [req res now h | s t srv now | s | s | write now]; simpl.
  - destruct (fst_serve_cases h now res req st)
      as [-> | [-> | [-> (sid & t & Hk & Hg)]]]; [exact Hc | |].
    + apply run_callbacks_new_ind; [| exact Hc].
      intros sid t srv now0 st0. apply consistent_init.
    + now apply (consistent_track req res now st sid t).
  - now apply consistent_init.
  - now apply (consistent_destroy_all [s]).
  - rewrite streamClosed_destroy. now apply (consistent_destroy_all [s]).
  - unfold tick. rewrite prune_spec. simpl.
    now apply consistent_destroy_all, consistent_keepalive.
Qed.

(** X10: in every state the server process can reach, transports and server
    instances are registered under the same session ids in the same order,
    every stream reference and every activity record belongs to a registered
    session, and no map holds a session id twice. *)
Theorem reachable_registry_consistent (st : ServerState) :
  reachable st -> registry_consistent st /\ wf_state st.
Proof.
  intros Hr. split; [| now apply reachable_wf].
  destruct Hr as [events <-].
  assert (forall st0, registry_consistent st0 -> registry_consistent (run st0 events))
    as Hrun.
  { induction events as [| e events IH]; intros st0 H0; simpl; [exact H0 |].
    apply IH. now apply consistent_step. }
  apply Hrun. unfold registry_consistent. simpl. tauto.
Qed.

Lemma reachable_registry_consistent_witness :
  registry_consistent streaming_session /\ wf_state streaming_session.
Proof.
  apply reachable_registry_consistent. eexists. reflexivity.
Defined.

(** ** Health endpoint *)

(** X11: the session count of [GET /health] is the number of registered
    transports.  In a reachable state it is also the number of server
    instances; keepalive never changes it; the handshake completion of an
    unregistered id raises it by one and of a registered id leaves it; the
    teardown of a registered session lowers it by one and of an unregistered
    one leaves it. *)
Theorem health_counts_sessions (st : ServerState) :
  (reachable st -> sessions (health st) = JsMap.size (mcpServers st)) /\
  (forall write, sessions (health (keepalive write st)) = sessions (health st)) /\
  (forall sid t srv now,
     sessions (health (onsessioninitialized sid t srv now st)) =
     match JsMap.get sid (transports st) with
     | Some _ => sessions (health st)
     | None => S (sessions (health st))
     end) /\
  (forall sid,
     JsMap.wf (transports st) ->
     sessions (health st) =
     match JsMap.get sid (transports st) with
     | Some _ => S (sessions (health (destroy sid st)))
     | None => sessions (health (destroy sid st))
     end).
Proof.
  split; [| split; [| split]].
  - intros Hr. apply reachable_registry_consistent in Hr as [(Hk & _) _].
    simpl. unfold JsMap.size. rewrite <- !(length_map fst).
    unfold JsMap.keys in Hk. now rewrite Hk.
  - intros write. now rewrite keepalive_spec.
  - intros sid t srv now. simpl. rewrite size_set. unfold JsMap.has.
    now destruct (JsMap.get sid (transports st)).
  - intros sid Hwf. simpl.
    destruct (JsMap.get sid (transports st)) as [t |] eqn:Eg.
    + symmetry. now apply (size_delete_present _ _ t).
    + apply get_None_keys in Eg. now rewrite delete_absent.
Qed.

Lemma health_counts_sessions_witness :
  sessions (health streaming_session) = JsMap.size (mcpServers streaming_session) /\
  sessions (health streaming_session) = S (sessions (health (destroy "s1" streaming_session))).
Proof.
  split.
  - apply (proj1 (health_counts_sessions streaming_session)). eexists. reflexivity.
  - apply (proj2 (proj2 (proj2 (health_counts_sessions streaming_session))) "s1").
    vm_compute. repeat constructor. simpl. tauto.
Defined.

(** ** Idle prune and recent activity *)

Lemma evicted_wf now activity sid lastSeen :
  JsMap.wf activity -> JsMap.get sid activity = Some lastSeen ->
  (In sid (evicted_ids now activity) <-> now - lastSeen > sessionTtlMs).
Proof.
  intros Hwf Hg. rewrite In_evicted_ids. split.
  - intros (t & Hin & Ht). apply (In_get_wf _ _ _ Hwf) in Hin. congruence.
  - intros Ht. exists lastSeen. split; [now apply get_Some_In | exact Ht].
Qed.

(** X12: the idle sweep evicts exactly the sessions whose last activity is
    more than the TTL (300000 ms) old: a session whose activity record is at
    most that old, the boundary included, is not torn down and keeps all four
    entries; an older one is torn down. *)
Theorem prune_evicts_exactly_expired
    (now : Z) (st : ServerState) (sid : string) (lastSeen : Z) :
  JsMap.wf (sessionActivity st) ->
  JsMap.get sid (sessionActivity st) = Some lastSeen ->
  (In sid (snd (prune now st)) <-> now - lastSeen > 300000) /\
  (now - lastSeen <= 300000 ->
     JsMap.get sid (transports (fst (prune now st))) = JsMap.get sid (transports st) /\
     JsMap.get sid (mcpServers (fst (prune now st))) = JsMap.get sid (mcpServers st) /\
     JsMap.get sid (sseStreams (fst (prune now st))) = JsMap.get sid (sseStreams st) /\
     JsMap.get sid (sessionActivity (fst (prune now st))) = Some lastSeen) /\
  (now - lastSeen > 300000 -> absent sid (fst (prune now st))).
Proof.
  intros Hwf Hg. rewrite prune_spec, destroy_all_maps. simpl.
  pose proof (evicted_wf now _ sid lastSeen Hwf Hg) as Hev.
  change sessionTtlMs with 300000 in Hev.
  split; [exact Hev |]. split.
  - intros Hle.
    assert (~ In sid (evicted_ids now (sessionActivity st))) as Hnot by (rewrite Hev; lia).
    rewrite !get_delete_all_notin by exact Hnot. auto.
  - intros Hgt. apply Hev in Hgt.
    pose proof (absent_destroy_all sid _ st (or_introl Hgt)) as Ha.
    now rewrite destroy_all_maps in Ha.
Qed.

Lemma prune_evicts_exactly_expired_witness :
  (In "s1" (snd (prune 301000 idle_session)) <-> 301000 - 1000 > 300000) /\
  absent "s1" (fst (prune 301001 idle_session)).
Proof.
  assert (JsMap.wf (sessionActivity idle_session)) as Hwf.
  { vm_compute. repeat constructor. simpl. tauto. }
  split.
  - exact (proj1 (prune_evicts_exactly_expired 301000 idle_session "s1" 1000 Hwf eq_refl)).
  - apply (proj2 (proj2 (prune_evicts_exactly_expired 301001 idle_session "s1" 1000
                           Hwf eq_refl))).
    reflexivity.
Defined.









(** ** Opening the event stream *)

(** X15: a [GET] needs no credential; addressed to a registered session it
    records the response object as the session's stream reference and the
    time as its last activity, replacing an earlier reference so that a
    session never holds more than one, and leaves the transports, the server
    instances and the entries of other sessions as they are. *)
Theorem get_opens_stream
    (h : HandleOutcome) (now : Z) (res : Stream) (req : Request)
    (st : ServerState) (sid : string) (t : Transport) :
  req_method req = "GET" ->
  addressed_to sid req ->
  JsMap.get sid (transports st) = Some t ->
  let st1 := fst (serve h now res req st) in
  serve h now res req st = mcpHandler h now res req st /\
  JsMap.get sid (sseStreams st1) = Some res /\
  JsMap.get sid (sessionActivity st1) = Some now /\
  transports st1 = transports st /\ mcpServers st1 = mcpServers st /\
  (forall sid', sid' <> sid ->
     JsMap.get sid' (sseStreams st1) = JsMap.get sid' (sseStreams st) /\
     JsMap.get sid' (sessionActivity st1) = JsMap.get sid' (sessionActivity st)) /\
  JsMap.size (sseStreams st1) =
    (if JsMap.has sid (sseStreams st) then JsMap.size (sseStreams st)
     else S (JsMap.size (sseStreams st))).
Proof.
  intros Hm Hk Hg st1. unfold addressed_to in Hk.
  assert (Hs : serve h now res req st = mcpHandler h now res req st).
  { unfold serve, salesforceOAuthMiddleware. now rewrite Hm. }
  assert (Hst1 : st1 = {| transports := transports st; mcpServers := mcpServers st;
                          sseStreams := JsMap.set sid res (sseStreams st);
                          sessionActivity := JsMap.set sid now (sessionActivity st) |}).
  { unfold st1. rewrite Hs, (mcpHandler_registered h now res req st sid t Hk Hg).
    unfold track. now rewrite Hm, Hk. }
  split; [exact Hs |]. rewrite Hst1. simpl.
  split; [apply get_set_eq |]. split; [apply get_set_eq |].
  split; [reflexivity |]. split; [reflexivity |]. split.
  - intros sid' Hne. split; apply get_set_ne; congruence.
  - apply size_set.
Qed.

Lemma get_opens_stream_witness :
  JsMap.get "s1"
    (sseStreams (fst (serve Handled 7000 9%nat
       (mkRequest "GET" {[ "mcp-session-id" := HSingle "s1" ]} None)
       streaming_session))) = Some 9%nat.
Proof.
  exact (proj1 (proj2 (get_opens_stream Handled 7000 9%nat
           (mkRequest "GET" {[ "mcp-session-id" := HSingle "s1" ]} None)
           streaming_session "s1" 1%nat eq_refl eq_refl eq_refl))).
Defined.

(** ** Registration round trip *)

(** X16: after the handshake completion of a non-empty session id, requests
    addressed to it are routed to the registered transport, the server
    instance and the time are recorded, and the entries of other sessions are
    untouched; tearing the session down again restores the registry exactly
    when the id was not in it before. *)
Theorem register_lookup_destroy
    (sid : string) (t : Transport) (srv : McpServer) (now : Z) (st : ServerState) :
  sid <> "" ->
  let st1 := onsessioninitialized sid t srv now st in
  (forall req, addressed_to sid req -> route req st1 = Normal (inl (Registered t))) /\
  lookup_transport (Some (HSingle sid)) st1 = Some t /\
  JsMap.get sid (mcpServers st1) = Some srv /\
  JsMap.get sid (sessionActivity st1) = Some now /\
  (forall sid', sid' <> sid ->
     JsMap.get sid' (transports st1) = JsMap.get sid' (transports st) /\
     JsMap.get sid' (mcpServers st1) = JsMap.get sid' (mcpServers st) /\
     JsMap.get sid' (sseStreams st1) = JsMap.get sid' (sseStreams st) /\
     JsMap.get sid' (sessionActivity st1) = JsMap.get sid' (sessionActivity st)) /\
  (absent sid st -> destroy sid st1 = st).
Proof.
  intros Hne st1.
  assert (Hkey : session_key (Some (HSingle sid)) = Some sid).
  { simpl. destruct (String.eqb_spec sid ""); [contradiction | reflexivity]. }
  assert (Hlk : JsMap.get sid (transports st1) = Some t) by apply get_set_eq.
  split; [| split; [| split; [| split; [| split]]]].
  - intros req Hk. unfold addressed_to in Hk. unfold route.
    destruct (session_key_truthy _ _ Hk) as [_ Hf]. rewrite Hf. simpl.
    unfold lookup_transport. now rewrite Hk, Hlk.
  - unfold lookup_transport. now rewrite Hkey.
  - apply get_set_eq.
  - apply get_set_eq.
  - intros sid' Hn. simpl. rewrite !get_set_ne by congruence. auto.
  - intros (H1 & H2 & H3 & H4). unfold destroy, st1. simpl.
    rewrite !delete_set_absent by assumption.
    rewrite (delete_absent _ _ H3). now destruct st.
Qed.

Lemma register_lookup_destroy_witness :
  destroy "s2" (onsessioninitialized "s2" 4%nat 5%nat 2500 streaming_session)
    = streaming_session.
Proof.
  refine (proj2 (proj2 (proj2 (proj2 (proj2 (register_lookup_destroy "s2" 4%nat 5%nat 2500
            streaming_session _))))) _).
  - discriminate.
  - vm_compute. intuition congruence.
Defined.

(** ** The two revisions of the server *)

Lemma legacy_onsessionclosed_idempotent sid st :
  Legacy.onsessionclosed sid (Legacy.onsessionclosed sid st) = Legacy.onsessionclosed sid st.
Proof. unfold Legacy.onsessionclosed. simpl. now rewrite !delete_idemp. Qed.

Lemma legacy_run_callbacks_delete h t req st sid :
  req_method req = "DELETE" ->
  session_key (req_headers req !! "mcp-session-id") = Some sid ->
  Legacy.run_callbacks h (Registered t) req st =
    if closes h then Legacy.onsessionclosed sid st else st.
Proof.
  intros Hm Hk. revert st.
  induction h as [| msg sent | cb rest IH]; intros st; simpl; try reflexivity.
  destruct cb as [s t' srv ts |]; simpl.
  - apply IH.
  - rewrite Hm, Hk. simpl. rewrite IH.
    destruct (closes rest); [apply legacy_onsessionclosed_idempotent | reflexivity].
Qed.

(** X17: the two revisions differ on an explicit [DELETE].  On a [DELETE] that
    passes the gate and is addressed to a registered session both revisions
    send the same reply; the later revision removes the session from all four
    maps whatever the transport does with the request, while the earlier one
    removes the session's transport and server instance only when the
    transport runs its close callback, and leaves them registered when the
    transport returns or throws without running it. *)
Theorem delete_cleanup_across_revisions
    (h : HandleOutcome) (now : Z) (res : Stream) (req : Request)
    (st : ServerState) (sid : string) (t : Transport) (ctx : option SalesforceAuthContext) :
  req_method req = "DELETE" ->
  addressed_to sid req ->
  JsMap.get sid (transports st) = Some t ->
  salesforceOAuthMiddleware req = Next ctx ->
  snd (Legacy.serve h req st) = snd (serve h now res req st) /\
  fst (serve h now res req st) = destroy sid st /\
  absent sid (fst (serve h now res req st)) /\
  fst (Legacy.serve h req st) =
    (if closes h then Legacy.onsessionclosed sid st else st) /\
  (closes h = false ->
     JsMap.get sid (transports (fst (Legacy.serve h req st))) = Some t) /\
  (closes h = true ->
     JsMap.get sid (transports (fst (Legacy.serve h req st))) = None /\
     JsMap.get sid (mcpServers (fst (Legacy.serve h req st))) = None).
Proof.
  intros Hm Hk Hg Hgate. unfold addressed_to in Hk.
  destruct (serve_passed h now res req st ctx Hgate) as [Hs Hl].
  pose proof (route_registered req st sid t Hk Hg) as Hr.
  assert (Hnew : fst (serve h now res req st) = destroy sid st).
  { rewrite (serve_registered h now res req st sid t ctx Hgate Hk Hg).
    now apply track_delete. }
  assert (Hold : fst (Legacy.serve h req st) =
                 if closes h then Legacy.onsessionclosed sid st else st).
  { rewrite Hl, (legacy_mcpHandler_routed h req st _ Hr). simpl.
    now apply legacy_run_callbacks_delete. }
  split.
  { rewrite Hs, Hl, (legacy_mcpHandler_routed h req st _ Hr),
      (mcpHandler_routed h now res req st _ Hr). reflexivity. }
  split; [exact Hnew |]. split; [rewrite Hnew; apply absent_destroy |].
  split; [exact Hold |]. rewrite Hold. split.
  - intros ->. exact Hg.
  - intros ->. simpl. split; apply get_delete_eq.
Qed.

Lemma delete_cleanup_across_revisions_witness :
  JsMap.get "s1"
    (transports
       (fst (Legacy.serve Handled
               (mkRequest "DELETE"
                  {[ "mcp-session-id" := HSingle "s1";
                     "authorization" := HSingle "Bearer abc" ]} None)
               streaming_session))) = Some 1%nat /\
  absent "s1"
    (fst (serve Handled 0 0%nat
            (mkRequest "DELETE"
               {[ "mcp-session-id" := HSingle "s1";
                  "authorization" := HSingle "Bearer abc" ]} None)
            streaming_session)).
Proof.
  pose proof (delete_cleanup_across_revisions Handled 0 0%nat
                (mkRequest "DELETE"
                   {[ "mcp-session-id" := HSingle "s1";
                      "authorization" := HSingle "Bearer abc" ]} None)
                streaming_session "s1" 1%nat
                (Some {| accessToken := "abc"; instanceUrl := None; userId := None |})
                eq_refl eq_refl eq_refl eq_refl) as (_ & _ & Habs & _ & Hkeep & _).
  split; [exact (Hkeep eq_refl) | exact Habs].
Defined.

(** ** What the timer never does *)

Lemma filter_none {A} (f : A -> bool) (l : list A) :
  (forall x, In x l -> f x = false) -> List.filter f l = [].
Proof.
  induction l as [| x l IH]; simpl; intros H; [reflexivity |].
  rewrite (H x) by now left. apply IH. intros y Hy. apply H. now right.
Qed.

Lemma tick_spec write now st :
  let st1 := keepalive write st in
  tick write now st = destroy_all (evicted_ids now (sessionActivity st1)) st1.
Proof. unfold tick. now rewrite prune_spec. Qed.

(** X18: a firing of the timer never adds or alters an entry: every entry of
    the four maps after the firing was there, with the same value, before
    it. *)
Theorem tick_only_removes
    (write : string -> Stream -> WriteResult) (now : Z) (st : ServerState) (sid : string) :
  let st' := tick write now st in
  (forall v, JsMap.get sid (transports st') = Some v ->
             JsMap.get sid (transports st) = Some v) /\
  (forall v, JsMap.get sid (mcpServers st') = Some v ->
             JsMap.get sid (mcpServers st) = Some v) /\
  (forall v, JsMap.get sid (sseStreams st') = Some v ->
             JsMap.get sid (sseStreams st) = Some v) /\
  (forall v, JsMap.get sid (sessionActivity st') = Some v ->
             JsMap.get sid (sessionActivity st) = Some v).
Proof.
  intros st'. unfold st'. rewrite tick_spec. cbv zeta.
  rewrite destroy_all_maps, keepalive_spec. simpl.
  repeat split; intros v H; repeat apply get_delete_all_Some in H; exact H.
Qed.

Lemma tick_only_removes_witness :
  JsMap.get "s1" (transports streaming_session) = Some 1%nat.
Proof.
  exact (proj1 (tick_only_removes (fun _ _ => WriteThrows "EPIPE") 30000
                  streaming_session "s1") 1%nat eq_refl).
Defined.

(** X19: a firing of the timer in which no keepalive write throws and no
    activity record is older than the TTL leaves the registry exactly as it
    was, backpressure or not. *)
Theorem quiet_tick_is_identity
    (write : string -> Stream -> WriteResult) (now : Z) (st : ServerState) :
  (forall sid stream msg, In (sid, stream) (sseStreams st) ->
                          write sid stream <> WriteThrows msg) ->
  (forall sid lastSeen, In (sid, lastSeen) (sessionActivity st) ->
                        now - lastSeen <= sessionTtlMs) ->
  tick write now st = st.
Proof.
  intros Hw Ha.
  assert (Hf : failed_ids write (sseStreams st) = []).
  { unfold failed_ids. rewrite filter_none; [reflexivity |].
    intros [k s] Hin. unfold write_failed. simpl.
    destruct (write k s) as [| | msg] eqn:E; try reflexivity.
    exfalso. exact (Hw k s msg Hin E). }
  assert (Hk : keepalive write st = st).
  { rewrite keepalive_spec, Hf. simpl. now destruct st. }
  rewrite tick_spec. cbv zeta. rewrite Hk.
  assert (He : evicted_ids now (sessionActivity st) = []).
  { unfold evicted_ids. rewrite filter_none; [reflexivity |].
    intros [k t] Hin. unfold expired. simpl. specialize (Ha k t Hin). lia. }
  now rewrite He.
Qed.

Lemma quiet_tick_is_identity_witness :
  tick (fun _ _ => Backpressure) 302000 streaming_session = streaming_session.
Proof.
  apply quiet_tick_is_identity.
  - intros sid stream msg _. discriminate.
  - intros sid lastSeen Hin. vm_compute in Hin.
    destruct Hin as [Heq | []]. injection Heq as _ <-. vm_compute. discriminate.
Defined.

(** ** Explicit teardown and the gate *)


